(** * CHANAKYA-OPSEC: the correlation engine and its scoring primitives

    A shallow embedding of [framework/__init__.py] (data model, scoring
    primitives) and [framework/correlation-engine/engine.py] (the three
    correlation passes, [correlate_all], the queries and the mitigation
    recommendations), followed by the properties established about them.

    Modelling conventions.
    - A Python [float] is an exact rational ([Q]); [**], [/], [min] and the
      comparisons are the exact operations.  Results are compared with
      [==] ([Qeq]).
    - A [datetime] is its POSIX time in microseconds (the resolution of
      [datetime]); [.timestamp()] is that number divided by 10^6.
    - A [str] is a [string]; [str.lower] acts on the ASCII letters.
    - A [dict] / [defaultdict(list)] is an association list in insertion
      order, which is the iteration order of a Python dict.
    - A [set] whose only use is [len] or membership is a duplicate-free list.
    - Code that can raise returns a [result]; a method of the engine takes
      the engine state and returns the new state with its outcome. *)

From Stdlib Require Import List ZArith QArith Qpower Qround Qminmax.
From Stdlib Require Import Bool Arith Lia Lqa Ascii String DecimalString.
From Stdlib Require Import Permutation.
Import ListNotations.

Local Open Scope list_scope.

(* ================================================================== *)
(** ** Exceptions *)

Inductive exn : Type :=
| ValueError
| IndexError.

Inductive result (A : Type) : Type :=
| Ok (a : A)
| Raise (e : exn).

Arguments Ok {A} a.
Arguments Raise {A} e.

Definition bind {A B : Type} (m : result A) (f : A -> result B) : result B :=
  match m with
  | Ok a => f a
  | Raise e => Raise e
  end.

Notation "x <- m ;; k" := (bind m (fun x => k))
  (at level 61, m at next level, right associativity).

(* ================================================================== *)
(** ** Data model ([framework/__init__.py]) *)

Inductive OpsecLayer : Type :=
| USERLAND | KERNEL | DNS | NETWORK | METADATA.

Inductive CorrelationStrength : Type :=
| SOLO | PAIR | MULTI | WEAK.

Inductive DetectabilityLevel : Type :=
| TRIVIAL | MODERATE | HARD | RESEARCH.

(** The [.value] of each enum member, as written in the class bodies. *)
Definition OpsecLayer_value (l : OpsecLayer) : string :=
  match l with
  | USERLAND => "userland"
  | KERNEL => "kernel"
  | DNS => "dns"
  | NETWORK => "network"
  | METADATA => "metadata"
  end.

Definition CorrelationStrength_value (c : CorrelationStrength) : string :=
  match c with
  | SOLO => "solo"
  | PAIR => "pair"
  | MULTI => "multi"
  | WEAK => "weak"
  end.

Definition DetectabilityLevel_value (d : DetectabilityLevel) : string :=
  match d with
  | TRIVIAL => "trivial"
  | MODERATE => "moderate"
  | HARD => "hard"
  | RESEARCH => "research"
  end.

Definition OpsecLayer_eq_dec (a b : OpsecLayer) : {a = b} + {a <> b}.
Proof. decide equality. Defined.

Definition OpsecLayer_eqb (a b : OpsecLayer) : bool :=
  if OpsecLayer_eq_dec a b then true else false.

(** [datetime]: POSIX time in microseconds. *)
Definition datetime : Type := Z.

Record Signal : Type := mkSignal {
  signal_id : string;
  layer : OpsecLayer;
  description : string;
  value : string;
  timestamp : datetime;
  correlation_potential : CorrelationStrength;
  detectability : DetectabilityLevel;
  metadata : list (string * string)
}.

Record CorrelationResult : Type := mkCorrelationResult {
  signals : list Signal;
  correlation_score : Q;
  attribution_confidence : string;
  correlation_type : string;
  explanation : string;
  risk_level : string
}.

(* ================================================================== *)
(** ** The Python built-ins the code relies on *)

(** [len(set(s.layer for s in signals))]: the set, insertion-ordered. *)
Definition layer_set (sigs : list Signal) : list OpsecLayer :=
  nodup OpsecLayer_eq_dec (map layer sigs).

(** [sum(...)], a left fold from 0. *)
Definition sum (l : list Q) : Q := fold_left Qplus l 0%Q.

(** [int(x)] on a float: truncation toward zero. *)
Definition int (x : Q) : Z := Z.quot (Qnum x) (Z.pos (Qden x)).

(** [datetime.timestamp()]: seconds since the epoch. *)
Definition datetime_timestamp (d : datetime) : Q := (inject_Z d / 1000000)%Q.

(** [sub in s] on strings. *)
Fixpoint str_in (sub s : string) : bool :=
  if String.prefix sub s then true
  else match s with
       | EmptyString => false
       | String _ s' => str_in sub s'
       end.

Definition lower_ascii (c : ascii) : ascii :=
  let n := nat_of_ascii c in
  if ((65 <=? n) && (n <=? 90))%nat then ascii_of_nat (n + 32) else c.

(** [s.lower()]. *)
Fixpoint lower (s : string) : string :=
  match s with
  | EmptyString => EmptyString
  | String c s' => String (lower_ascii c) (lower s')
  end.

(** [str(n)] / the rendering of an integer inside an f-string. *)
Definition str_of_nat (n : nat) : string :=
  NilEmpty.string_of_uint (Nat.to_uint n).

Definition str_of_Z (z : Z) : string :=
  NilEmpty.string_of_int (Z.to_int z).

(** [l.index(x)]: position of the first element equal to [x]; [ValueError]
    when there is none. *)
Fixpoint list_index (x : string) (l : list string) : result nat :=
  match l with
  | [] => Raise ValueError
  | y :: l' =>
      if String.eqb y x then Ok 0%nat
      else i <- list_index x l' ;; Ok (S i)
  end.

(** [l[0]]. *)
Definition item0 {A : Type} (l : list A) : result A :=
  match l with
  | [] => Raise IndexError
  | x :: _ => Ok x
  end.

(** [d[k].append(v)] on a [defaultdict(list)]: the value joins the list of
    its key; a new key goes to the end of the dictionary. *)
Section DefaultDict.
Context {K V : Type} (eqb : K -> K -> bool).

Fixpoint dict_append (k : K) (v : V) (d : list (K * list V))
  : list (K * list V) :=
  match d with
  | [] => [(k, [v])]
  | (k', vs) :: d' =>
      if eqb k' k then (k', vs ++ [v]) :: d'
      else (k', vs) :: dict_append k v d'
  end.

(** [for v in vs: d[key(v)].append(v)], starting from [d]. *)
Definition group_into (key : V -> K) (vs : list V) (d : list (K * list V))
  : list (K * list V) :=
  fold_left (fun d v => dict_append (key v) v d) vs d.

Definition group_by (key : V -> K) (vs : list V) : list (K * list V) :=
  group_into key vs [].

(** [d.get(k, [])]. *)
Fixpoint dict_get (k : K) (d : list (K * list V)) : list V :=
  match d with
  | [] => []
  | (k', vs) :: d' => if eqb k' k then vs else dict_get k d'
  end.
End DefaultDict.

(** [sorted(l, key=k)]: every key is computed first (an exception of [k]
    propagates), then the list is sorted stably by key. *)
Section Sorted.
Context {A : Type}.

Fixpoint keys_of (key : A -> result nat) (l : list A)
  : result (list (nat * A)) :=
  match l with
  | [] => Ok []
  | x :: l' =>
      k <- key x ;;
      rest <- keys_of key l' ;;
      Ok ((k, x) :: rest)
  end.

Fixpoint insert_keyed (x : nat * A) (l : list (nat * A)) : list (nat * A) :=
  match l with
  | [] => [x]
  | y :: l' =>
      if (fst x <=? fst y)%nat then x :: y :: l'
      else y :: insert_keyed x l'
  end.

Definition sort_keyed (l : list (nat * A)) : list (nat * A) :=
  fold_right insert_keyed [] l.

Definition sorted (key : A -> result nat) (l : list A) : result (list A) :=
  ks <- keys_of key l ;;
  Ok (map snd (sort_keyed ks)).
End Sorted.

(* ================================================================== *)
(** ** Scoring primitives ([framework/__init__.py]) *)

Definition base_scores (c : CorrelationStrength) : Q :=
  match c with
  | SOLO => 0.8
  | PAIR => 0.4
  | MULTI => 0.2
  | WEAK => 0.1
  end.

Definition calculate_correlation_score (sigs : list Signal) : Q :=
  match sigs with
  | [] => 0
  | _ :: _ =>
      let unique_layers := Z.of_nat (List.length (layer_set sigs)) in
      let layer_multiplier := (1 + inject_Z (unique_layers - 1) * 0.3)%Q in
      let avg_strength :=
        (sum (map (fun s => base_scores (correlation_potential s)) sigs)
         / inject_Z (Z.of_nat (List.length sigs)))%Q in
      let n := Z.of_nat (List.length sigs) in
      let combined_score :=
        ((1 - (1 - avg_strength) ^ n) * layer_multiplier)%Q in
      Qmin combined_score 1
  end.

Definition assess_attribution_confidence (correlation_score : Q) : string :=
  if Qle_bool 0.9 correlation_score then "CRITICAL"
  else if Qle_bool 0.7 correlation_score then "HIGH"
  else if Qle_bool 0.4 correlation_score then "MEDIUM"
  else "LOW".

Definition assess_risk_level (attribution_confidence : string)
  (signal_count : Z) : string :=
  if String.eqb attribution_confidence "CRITICAL" || (4 <=? signal_count)%Z
  then "CRITICAL - OPSEC COMPROMISED"
  else if String.eqb attribution_confidence "HIGH" || (3 <=? signal_count)%Z
  then "HIGH - ATTRIBUTION LIKELY"
  else if String.eqb attribution_confidence "MEDIUM"
  then "MEDIUM - CORRELATION POSSIBLE"
  else "LOW - INSUFFICIENT CORRELATION".

(* ================================================================== *)
(** ** The correlation engine ([framework/correlation-engine/engine.py]) *)

Record CorrelationEngine : Type := mkEngine {
  self_signals : list Signal;
  self_correlations : list CorrelationResult
}.

(** [CorrelationEngine()]. *)
Definition new_engine : CorrelationEngine := mkEngine [] [].

Definition add_signals (self : CorrelationEngine) (batch : list Signal)
  : CorrelationEngine :=
  mkEngine (self_signals self ++ batch) (self_correlations self).

Definition clear (self : CorrelationEngine) : CorrelationEngine :=
  mkEngine [] [].

(** The block every pass repeats for the group it found:
    [score = calculate_correlation_score(group)],
    [confidence = assess_attribution_confidence(score)], and the
    [CorrelationResult(...)] whose risk level is
    [assess_risk_level(confidence, len(group))]. *)
Definition correlate_group (group : list Signal) (ctype expl : string)
  : CorrelationResult :=
  let score := calculate_correlation_score group in
  let confidence := assess_attribution_confidence score in
  {| signals := group;
     correlation_score := score;
     attribution_confidence := confidence;
     correlation_type := ctype;
     explanation := expl;
     risk_level := assess_risk_level confidence (Z.of_nat (List.length group)) |}.

(** *** Temporal pass *)

Definition default_time_window_seconds : Z := 300.

(** [int(signal.timestamp.timestamp() / time_window_seconds)]. *)
Definition bucket_key (time_window_seconds : Z) (s : Signal) : Z :=
  int (datetime_timestamp (timestamp s) / inject_Z time_window_seconds)%Q.

(** The body of the loop over [time_buckets.items()]. *)
Definition temporal_bucket (time_window_seconds : Z) (bucket_signals : list Signal)
  : list CorrelationResult :=
  if (List.length bucket_signals <? 2)%nat then []
  else
    let layers := layer_set bucket_signals in
    if (List.length layers <? 2)%nat then []
    else
      [correlate_group bucket_signals "TEMPORAL"
         (str_of_nat (List.length bucket_signals) ++ " signals from "
          ++ str_of_nat (List.length layers) ++ " layers occurred within "
          ++ str_of_Z time_window_seconds ++ "s window")%string].

(** [time_window_seconds] is never 0 in the source (the division would
    raise); [correlate_all] uses the default, 300. *)
Definition _correlate_temporal (self : CorrelationEngine) (time_window_seconds : Z)
  : list CorrelationResult :=
  let time_buckets :=
    group_by Z.eqb (bucket_key time_window_seconds) (self_signals self) in
  flat_map (fun kb => temporal_bucket time_window_seconds (snd kb)) time_buckets.

(** *** Cross-layer pass *)

(** Truthiness of a list. *)
Definition nonempty {A : Type} (l : list A) : bool :=
  match l with [] => false | _ :: _ => true end.

Definition is_dns_resolver_signal (s : Signal) : bool :=
  str_in "resolver" (signal_id s) || str_in "public_resolver" (signal_id s).

Definition is_as_signal (s : Signal) : bool :=
  str_in "as" (lower (signal_id s)).

Definition is_timezone_signal (s : Signal) : bool :=
  str_in "timezone" (signal_id s) || str_in "locale" (signal_id s).

Definition is_timing_signal (s : Signal) : bool :=
  str_in "time" (signal_id s) || str_in "timing" (signal_id s).

Definition _correlate_cross_layer (self : CorrelationEngine)
  : list CorrelationResult :=
  let layer_signals := group_by OpsecLayer_eqb layer (self_signals self) in
  (* Pattern 1: DNS + Network *)
  let dns_signals := dict_get OpsecLayer_eqb DNS layer_signals in
  let network_signals := dict_get OpsecLayer_eqb NETWORK layer_signals in
  let dns_resolver_signals := filter is_dns_resolver_signal dns_signals in
  let as_signals := filter is_as_signal network_signals in
  let correlations1 :=
    if nonempty dns_resolver_signals && nonempty as_signals then
      let combined := dns_resolver_signals ++ as_signals in
      [correlate_group combined "DNS_NETWORK_CORRELATION"
         "DNS resolver and network AS signals enable infrastructure correlation"]
    else [] in
  (* Pattern 2: Userland + Metadata *)
  let userland_signals := dict_get OpsecLayer_eqb USERLAND layer_signals in
  let metadata_signals := dict_get OpsecLayer_eqb METADATA layer_signals in
  let timezone_signals := filter is_timezone_signal userland_signals in
  let timing_signals := filter is_timing_signal metadata_signals in
  let correlations2 :=
    if nonempty timezone_signals && nonempty timing_signals then
      let combined := timezone_signals ++ timing_signals in
      [correlate_group combined "TIMEZONE_TIMING_CORRELATION"
         "Timezone and activity timing signals enable geographic/human attribution"]
    else [] in
  correlations1 ++ correlations2.

(** *** Multi-signal convergence pass *)

(** The sort key of the source:
    [['WEAK', 'MULTI', 'PAIR', 'SOLO'].index(s.correlation_potential.value)]. *)
Definition potential_index (s : Signal) : result nat :=
  list_index (CorrelationStrength_value (correlation_potential s))
             ["WEAK"; "MULTI"; "PAIR"; "SOLO"]%string.

(** The same key on the member's [.name] instead of its [.value]; not what
    the source computes, kept to state what the pass does under a key that
    does not raise. *)
Definition CorrelationStrength_name (c : CorrelationStrength) : string :=
  match c with
  | SOLO => "SOLO"
  | PAIR => "PAIR"
  | MULTI => "MULTI"
  | WEAK => "WEAK"
  end.

Definition potential_name_index (s : Signal) : result nat :=
  list_index (CorrelationStrength_name (correlation_potential s))
             ["WEAK"; "MULTI"; "PAIR"; "SOLO"]%string.

Section MultiSignal.
(** The pass, with the sort key abstracted. *)
Variable key : Signal -> result nat.

(** The loop over [layer_groups.items()]. *)
Fixpoint representatives (groups : list (OpsecLayer * list Signal))
  : result (list Signal) :=
  match groups with
  | [] => Ok []
  | (_, sigs) :: rest =>
      sorted_signals <- sorted key sigs ;;
      first <- item0 sorted_signals ;;
      reps <- representatives rest ;;
      Ok (first :: reps)
  end.

Definition correlate_multi_signal_by (sigs : list Signal)
  : result (list CorrelationResult) :=
  let layer_groups := group_by OpsecLayer_eqb layer sigs in
  if (3 <=? List.length layer_groups)%nat then
    representative_signals <- representatives layer_groups ;;
    if (3 <=? List.length representative_signals)%nat then
      Ok [correlate_group representative_signals "MULTI_LAYER_CONVERGENCE"
            ("Signals from " ++ str_of_nat (List.length representative_signals)
             ++ " different layers converge for high-confidence attribution")%string]
    else Ok []
  else Ok [].
End MultiSignal.

Definition _correlate_multi_signal (self : CorrelationEngine)
  : result (list CorrelationResult) :=
  correlate_multi_signal_by potential_index (self_signals self).

(** *** correlate_all *)

Definition extend_correlations (self : CorrelationEngine)
  (cs : list CorrelationResult) : CorrelationEngine :=
  mkEngine (self_signals self) (self_correlations self ++ cs).

(** The engine after the call, and what the call returns or raises. *)
Definition correlate_all (self : CorrelationEngine)
  : CorrelationEngine * result (list CorrelationResult) :=
  let self := mkEngine (self_signals self) [] in
  let temporal_corrs := _correlate_temporal self default_time_window_seconds in
  let self := extend_correlations self temporal_corrs in
  let cross_layer_corrs := _correlate_cross_layer self in
  let self := extend_correlations self cross_layer_corrs in
  match _correlate_multi_signal self with
  | Raise e => (self, Raise e)
  | Ok multi_corrs =>
      let self := extend_correlations self multi_corrs in
      (self, Ok (self_correlations self))
  end.

(** *** Queries and recommendations *)

Definition get_critical_correlations (self : CorrelationEngine)
  : list CorrelationResult :=
  filter (fun c => String.eqb (attribution_confidence c) "CRITICAL")
         (self_correlations self).

Definition get_high_risk_correlations (self : CorrelationEngine)
  : list CorrelationResult :=
  filter (fun c => existsb (String.eqb (attribution_confidence c))
                           ["HIGH"; "CRITICAL"]%string)
         (self_correlations self).

Record Recommendation : Type := mkRecommendation {
  priority : string;
  issue : string;
  recommendation : string;
  layers : list string
}.

(** The [if]/[elif] chain applied to one high-risk correlation.  The order
    of [list(set(...))] is unspecified in Python; first-occurrence order is
    used here. *)
Definition recommendation_for (corr : CorrelationResult) : list Recommendation :=
  if String.eqb (correlation_type corr) "DNS_NETWORK_CORRELATION" then
    [ {| priority := "CRITICAL";
         issue := "DNS resolver and network AS mismatch";
         recommendation := "Use DNS resolver in same AS as VPN exit, or deploy private recursive resolver";
         layers := ["DNS"; "NETWORK"]%string |} ]
  else if String.eqb (correlation_type corr) "TIMEZONE_TIMING_CORRELATION" then
    [ {| priority := "HIGH";
         issue := "Timezone and activity timing correlation";
         recommendation := "Automate operations with randomized timing, or operate across multiple timezones";
         layers := ["USERLAND"; "METADATA"]%string |} ]
  else if String.eqb (correlation_type corr) "MULTI_LAYER_CONVERGENCE" then
    [ {| priority := "CRITICAL";
         issue := ("Signals from " ++ str_of_nat (List.length (signals corr))
                   ++ " layers correlate")%string;
         recommendation := "Break correlation chains by isolating operational layers and adding noise/diversity";
         layers := nodup string_dec
                     (map (fun s => OpsecLayer_value (layer s)) (signals corr)) |} ]
  else [].

Definition rec_key (r : Recommendation) : string * string :=
  (priority r, issue r).

Definition key_eqb (a b : string * string) : bool :=
  String.eqb (fst a) (fst b) && String.eqb (snd a) (snd b).

(** The deduplication loop, from a given [seen]. *)
Fixpoint unique_from (seen : list (string * string)) (recs : list Recommendation)
  : list Recommendation :=
  match recs with
  | [] => []
  | r :: rest =>
      let key := rec_key r in
      if existsb (key_eqb key) seen then unique_from seen rest
      else r :: unique_from (key :: seen) rest
  end.

Definition get_mitigation_recommendations (self : CorrelationEngine)
  : list Recommendation :=
  let recommendations :=
    flat_map recommendation_for (get_high_risk_correlations self) in
  unique_from [] recommendations.

(* ================================================================== *)
(** ** Notions used to state the properties *)

(** [sub] occurs in [s]. *)
Definition contains (sub s : string) : Prop :=
  exists pre post, s = (pre ++ sub ++ post)%string.

(** "as" occurs in [s], in any letter case. *)
Definition contains_as_nocase (s : string) : Prop :=
  exists pre c1 c2 post,
    s = (pre ++ String c1 (String c2 post))%string /\
    (c1 = "a" \/ c1 = "A")%char /\ (c2 = "s" \/ c2 = "S")%char.

(** The group spans at least [n] distinct layers. *)
Definition spans_at_least (n : nat) (g : list Signal) : Prop :=
  exists ls : list OpsecLayer,
    NoDup ls /\ List.length ls = n /\
    forall l, In l ls -> exists s, In s g /\ layer s = l.

Definition all_layers : list OpsecLayer :=
  [USERLAND; KERNEL; DNS; NETWORK; METADATA].

(** The number of layers of the closed set that occur in the group. *)
Definition distinct_layer_count (g : list Signal) : nat :=
  List.length
    (filter (fun l => existsb (fun s => OpsecLayer_eqb (layer s) l) g) all_layers).

(** The arithmetic mean of the base strengths of the group. *)
Definition mean_strength (g : list Signal) : Q :=
  (fold_right (fun s acc => base_scores (correlation_potential s) + acc) 0 g
   / inject_Z (Z.of_nat (List.length g)))%Q.

(** The score as the specification words it:
    min(1, (1 - (1 - avg)^n) * (1 + 0.3 * (L - 1))). *)
Definition score_formula (g : list Signal) : Q :=
  let n := Z.of_nat (List.length g) in
  let L := inject_Z (Z.of_nat (distinct_layer_count g)) in
  Qmin 1 ((1 - (1 - mean_strength g) ^ n) * (1 + 0.3 * (L - 1)))%Q.

(** The bucket of a signal under floor division. *)
Definition floor_bucket (time_window_seconds : Z) (s : Signal) : Z :=
  Qfloor (datetime_timestamp (timestamp s) / inject_Z time_window_seconds)%Q.

(** [l1] is [l2] with some elements left out, order kept. *)
Inductive Subseq {A : Type} : list A -> list A -> Prop :=
| Subseq_nil : Subseq [] []
| Subseq_skip : forall x l1 l2, Subseq l1 l2 -> Subseq l1 (x :: l2)
| Subseq_keep : forall x l1 l2, Subseq l1 l2 -> Subseq (x :: l1) (x :: l2).

(** The invariant of a stored result: its confidence and risk level are the
    functions of its score and group size, and its score is in [0,1]. *)
Definition result_consistent (c : CorrelationResult) : Prop :=
  (0 <= correlation_score c)%Q /\ (correlation_score c <= 1)%Q /\
  attribution_confidence c = assess_attribution_confidence (correlation_score c) /\
  risk_level c =
    assess_risk_level (attribution_confidence c)
                      (Z.of_nat (List.length (signals c))).

(** Signals used as concrete inputs. *)
Definition signal_at (id : string) (l : OpsecLayer) (seconds : Z)
  (p : CorrelationStrength) : Signal :=
  {| signal_id := id; layer := l; description := ""; value := "";
     timestamp := (seconds * 1000000)%Z; correlation_potential := p;
     detectability := TRIVIAL; metadata := [] |}.

(** Two signals 400 seconds apart, one before and one after the epoch
    (1969-12-31T23:56:40Z and 1970-01-01T00:03:20Z). *)
Definition around_epoch : list Signal :=
  [ signal_at "dns_leak" DNS (-200) PAIR;
    signal_at "route_change" NETWORK 200 PAIR ].

(** Three signals in three layers, one hour apart (from 2024-01-15T00:00:00Z). *)
Definition three_layers : list Signal :=
  [ signal_at "dns_leak" DNS 1705276800 PAIR;
    signal_at "route_change" NETWORK 1705280400 SOLO;
    signal_at "locale_env" USERLAND 1705284000 WEAK ].

(** What a dictionary built with [dict_append] holds once the values [pre]
    have gone in: distinct keys, under each key the values of [pre] with
    that key, in order and at least one, and a key for every value. *)
Definition grouped {K V : Type} (eqb : K -> K -> bool) (key : V -> K)
  (d : list (K * list V)) (pre : list V) : Prop :=
  NoDup (map fst d) /\
  (forall k l, In (k, l) d ->
     l = filter (fun v => eqb (key v) k) pre /\ l <> []) /\
  (forall v, In v pre -> In (key v) (map fst d)).

(** The representative of a group: one of its signals, with a least key. *)
Definition represents (key : Signal -> result nat)
  (group : OpsecLayer * list Signal) (r : Signal) : Prop :=
  In r (snd group) /\
  exists kr, key r = Ok kr /\
    forall s ks, In s (snd group) -> key s = Ok ks -> (kr <= ks)%nat.

(* ================================================================== *)
(** ** The analyzer base class ([framework/__init__.py]) *)

Record OpsecAnalyzer : Type := mkAnalyzer {
  analyzer_layer : OpsecLayer;
  analyzer_signals : list Signal
}.

(** [OpsecAnalyzer(layer)]. *)
Definition new_analyzer (l : OpsecLayer) : OpsecAnalyzer := mkAnalyzer l [].

(** [add_signal]: [ValueError] on a signal of another layer. *)
Definition add_signal (self : OpsecAnalyzer) (signal : Signal)
  : OpsecAnalyzer * result unit :=
  if negb (OpsecLayer_eqb (layer signal) (analyzer_layer self))
  then (self, Raise ValueError)
  else (mkAnalyzer (analyzer_layer self) (analyzer_signals self ++ [signal]),
        Ok tt).

Definition get_signals (self : OpsecAnalyzer) : list Signal :=
  analyzer_signals self.

Definition clear_signals (self : OpsecAnalyzer) : OpsecAnalyzer :=
  mkAnalyzer (analyzer_layer self) [].

(** A caller adding signals one after the other, going on after a
    [ValueError]. *)
Definition add_each (self : OpsecAnalyzer) (sigs : list Signal) : OpsecAnalyzer :=
  fold_left (fun a s => fst (add_signal a s)) sigs self.

(* ================================================================== *)
(** ** Serialization and the report ([to_dict], [generate_report]) *)

(** The values the dictionaries of [to_dict] and [generate_report] hold. *)
#[local] Unset Elimination Schemes.
Inductive pyvalue : Type :=
| PyNone
| PyStr (s : string)
| PyInt (z : Z)
| PyFloat (q : Q)
| PyList (l : list pyvalue)
| PyDict (d : list (string * pyvalue)).
#[local] Set Elimination Schemes.

(** [d[k] += 1] on a [defaultdict(int)]. *)
Fixpoint dict_incr (k : string) (d : list (string * Z)) : list (string * Z) :=
  match d with
  | [] => [(k, 1%Z)]
  | (k', n) :: d' =>
      if String.eqb k' k then (k', (n + 1)%Z) :: d'
      else (k', n) :: dict_incr k d'
  end.

(** [for x in l: d[key(x)] += 1] from the empty dictionary. *)
Definition count_by {A : Type} (key : A -> string) (l : list A)
  : list (string * Z) :=
  fold_left (fun d x => dict_incr (key x) d) l [].

(** The scan of [max(l, key=k)] once a first element is at hand: a later
    element takes over only with a strictly greater key. *)
Fixpoint max_from {A : Type} (key : A -> Q) (best : A) (l : list A) : A :=
  match l with
  | [] => best
  | x :: l' =>
      if negb (Qle_bool (key x) (key best)) then max_from key x l'
      else max_from key best l'
  end.

(** [max(l, key=k)]; [ValueError] on the empty list. *)
Definition py_max {A : Type} (key : A -> Q) (l : list A) : result A :=
  match l with
  | [] => Raise ValueError
  | x :: l' => Ok (max_from key x l')
  end.

Section Report.
(** [datetime.isoformat], of the standard library. *)
Variable isoformat : datetime -> string.

(** [Signal.to_dict]; [value] is text, so [str(self.value)] is itself. *)
Definition Signal_to_dict (s : Signal) : pyvalue :=
  PyDict
    [ ("signal_id", PyStr (signal_id s));
      ("layer", PyStr (OpsecLayer_value (layer s)));
      ("description", PyStr (description s));
      ("value", PyStr (value s));
      ("timestamp", PyStr (isoformat (timestamp s)));
      ("correlation_potential",
       PyStr (CorrelationStrength_value (correlation_potential s)));
      ("detectability", PyStr (DetectabilityLevel_value (detectability s)));
      ("metadata", PyDict (map (fun kv => (fst kv, PyStr (snd kv))) (metadata s)))
    ]%string.

(** [CorrelationResult.to_dict]. *)
Definition CorrelationResult_to_dict (c : CorrelationResult) : pyvalue :=
  PyDict
    [ ("signal_count", PyInt (Z.of_nat (List.length (signals c))));
      ("signal_layers",
       PyList (map (fun s => PyStr (OpsecLayer_value (layer s))) (signals c)));
      ("correlation_score", PyFloat (correlation_score c));
      ("attribution_confidence", PyStr (attribution_confidence c));
      ("correlation_type", PyStr (correlation_type c));
      ("explanation", PyStr (explanation c));
      ("risk_level", PyStr (risk_level c));
      ("signals", PyList (map Signal_to_dict (signals c)))
    ]%string.

(** [dict(counter)] as a value. *)
Definition counts_value (d : list (string * Z)) : pyvalue :=
  PyDict (map (fun kv => (fst kv, PyInt (snd kv))) d).

(** [generate_report]; [now] is what [datetime.now()] returns. *)
Definition generate_report (self : CorrelationEngine) (now : datetime) : pyvalue :=
  let layer_counts :=
    count_by (fun s => OpsecLayer_value (layer s)) (self_signals self) in
  let risk_counts := count_by attribution_confidence (self_correlations self) in
  let highest_risk :=
    if nonempty (self_correlations self)
    then match py_max correlation_score (self_correlations self) with
         | Ok c => Some c
         | Raise _ => None
         end
    else None in
  PyDict
    [ ("timestamp", PyStr (isoformat now));
      ("summary",
       PyDict
         [ ("total_signals", PyInt (Z.of_nat (List.length (self_signals self))));
           ("signals_by_layer", counts_value layer_counts);
           ("total_correlations",
            PyInt (Z.of_nat (List.length (self_correlations self))));
           ("correlations_by_confidence", counts_value risk_counts) ]);
      ("highest_risk_correlation",
       match highest_risk with
       | Some c => CorrelationResult_to_dict c
       | None => PyNone
       end);
      ("critical_correlations",
       PyList (map CorrelationResult_to_dict (get_critical_correlations self)));
      ("all_correlations",
       PyList (map CorrelationResult_to_dict (self_correlations self)));
      ("all_signals", PyList (map Signal_to_dict (self_signals self)))
    ]%string.
End Report.

(* ================================================================== *)
(** ** Producers of signals ([framework/dns/analyzer.py],
       [framework/userland/analyzer.py]) *)

(** [d.get(k)] / [k in d] / [d[k]] on a dictionary with string keys. *)
Fixpoint dict_lookup {A : Type} (k : string) (d : list (string * A)) : option A :=
  match d with
  | [] => None
  | (k', v) :: d' => if String.eqb k' k then Some v else dict_lookup k d'
  end.

(** [s.replace(a, b)] for one-character [a] and [b]. *)
Fixpoint replace_char (a b : ascii) (s : string) : string :=
  match s with
  | EmptyString => EmptyString
  | String c s' =>
      String (if Ascii.eqb c a then b else c) (replace_char a b s')
  end.

(** [sep.join(l)]. *)
Fixpoint join (sep : string) (l : list string) : string :=
  match l with
  | [] => ""
  | [x] => x
  | x :: l' => (x ++ sep ++ join sep l')%string
  end.

(** *** DNSResolverAnalyzer *)

Record ResolverInfo : Type := mkResolverInfo {
  info_name : string;
  info_as : string;
  info_geo : string
}.

Definition PUBLIC_RESOLVERS : list (string * ResolverInfo) :=
  [ ("8.8.8.8", mkResolverInfo "Google Public DNS" "AS15169" "Global");
    ("8.8.4.4", mkResolverInfo "Google Public DNS" "AS15169" "Global");
    ("1.1.1.1", mkResolverInfo "Cloudflare DNS" "AS13335" "Global");
    ("1.0.0.1", mkResolverInfo "Cloudflare DNS" "AS13335" "Global");
    ("9.9.9.9", mkResolverInfo "Quad9" "AS19281" "Global");
    ("208.67.222.222", mkResolverInfo "OpenDNS" "AS36692" "USA");
    ("208.67.220.220", mkResolverInfo "OpenDNS" "AS36692" "USA") ]%string.

(** The [resolver_config] dictionary in its documented format; a key that is
    absent is [None]. *)
Record ResolverConfig : Type := mkResolverConfig {
  resolvers : option (list string);
  vpn_as : option string;
  doh_enabled : option bool;
  dnssec_enabled : option bool
}.

(** Truthiness of the dictionary: it has a key. *)
Definition config_nonempty (c : ResolverConfig) : bool :=
  match resolvers c, vpn_as c, doh_enabled c, dnssec_enabled c with
  | None, None, None, None => false
  | _, _, _, _ => true
  end.

Definition public_resolver_signal (resolver : string) (info : ResolverInfo)
  (now : datetime) : Signal :=
  {| signal_id := ("public_resolver_" ++ replace_char "." "_" resolver)%string;
     layer := DNS;
     description := ("Using public DNS resolver: " ++ info_name info)%string;
     value := resolver;
     timestamp := now;
     correlation_potential := PAIR;
     detectability := TRIVIAL;
     metadata :=
       [ ("resolver", resolver);
         ("name", info_name info);
         ("as", info_as info);
         ("risk", "Queries logged, potential correlation with other layers") ]%string |}.

Definition as_mismatch_signal (info : ResolverInfo) (vpn : string)
  (now : datetime) : Signal :=
  {| signal_id := "dns_vpn_as_mismatch";
     layer := DNS;
     description := "DNS resolver AS differs from VPN AS";
     value := ("DNS:" ++ info_as info ++ ", VPN:" ++ vpn)%string;
     timestamp := now;
     correlation_potential := PAIR;
     detectability := TRIVIAL;
     metadata :=
       [ ("dns_as", info_as info);
         ("vpn_as", vpn);
         ("risk", "HIGH - AS mismatch enables infrastructure correlation") ]%string |}.

Definition doh_disabled_signal (now : datetime) : Signal :=
  {| signal_id := "doh_disabled";
     layer := DNS;
     description := "DNS over HTTPS (DoH) not enabled";
     value := "disabled";
     timestamp := now;
     correlation_potential := MULTI;
     detectability := TRIVIAL;
     metadata := [ ("risk", "DNS queries visible to network observers") ]%string |}.

(** The loop over [resolver_config['resolvers']].  [clock n] is what the
    [n]-th call of [datetime.now()] returns; [tick] counts the calls. *)
Fixpoint resolver_loop (clock : nat -> datetime) (vpn : option string)
  (rs : list string) (tick : nat) : list Signal * nat :=
  match rs with
  | [] => ([], tick)
  | resolver :: rs' =>
      match dict_lookup resolver PUBLIC_RESOLVERS with
      | Some info =>
          let s1 := public_resolver_signal resolver info (clock tick) in
          let tick1 := S tick in
          let mismatch :=
            match vpn with
            | Some v =>
                if negb (String.eqb (info_as info) v)
                then ([as_mismatch_signal info v (clock tick1)], S tick1)
                else ([], tick1)
            | None => ([], tick1)
            end in
          let rest := resolver_loop clock vpn rs' (snd mismatch) in
          (s1 :: fst mismatch ++ fst rest, snd rest)
      | None => resolver_loop clock vpn rs' tick
      end
  end.

(** [DNSResolverAnalyzer.analyze]: the analyzer after the call and the list
    returned. *)
Definition DNSResolverAnalyzer_analyze (clock : nat -> datetime)
  (self : OpsecAnalyzer) (resolver_config : ResolverConfig)
  : OpsecAnalyzer * list Signal :=
  if negb (config_nonempty resolver_config)
     || negb (match resolvers resolver_config with
              | Some _ => true
              | None => false
              end)
  then (self, [])
  else
    let rs := match resolvers resolver_config with
              | Some rs => rs
              | None => []
              end in
    let found := resolver_loop clock (vpn_as resolver_config) rs 0 in
    let doh :=
      match doh_enabled resolver_config with
      | Some true => []
      | _ => [doh_disabled_signal (clock (snd found))]
      end in
    let sigs := fst found ++ doh in
    (mkAnalyzer (analyzer_layer self) (analyzer_signals self ++ sigs), sigs).

(** *** EnvironmentAnalyzer: the two readers of [os.environ] *)

Definition environment_signal (id desc var val : string) (now : datetime)
  : Signal :=
  {| signal_id := id;
     layer := USERLAND;
     description := desc;
     value := val;
     timestamp := now;
     correlation_potential := PAIR;
     detectability := TRIVIAL;
     metadata := [ ("env_var", var); ("value", val) ]%string |}.

(** [_analyze_locale]: the first of LANG, LC_ALL, LC_MESSAGES that is set. *)
Fixpoint first_locale (environ : list (string * string)) (now : datetime)
  (locale_vars : list string) : option Signal :=
  match locale_vars with
  | [] => None
  | var :: rest =>
      match dict_lookup var environ with
      | Some val =>
          Some (environment_signal "locale" "System locale configuration"
                  var val now)
      | None => first_locale environ now rest
      end
  end.

Definition _analyze_locale (environ : list (string * string)) (now : datetime)
  : option Signal :=
  first_locale environ now ["LANG"; "LC_ALL"; "LC_MESSAGES"]%string.

(** [_analyze_env_vars]: one signal for each sensitive variable that is set. *)
Fixpoint env_vars_loop (environ : list (string * string))
  (clock : nat -> datetime) (vars : list string) (tick : nat) : list Signal :=
  match vars with
  | [] => []
  | var :: rest =>
      match dict_lookup var environ with
      | Some val =>
          environment_signal ("env_" ++ lower var)
            ("Environment variable '" ++ var ++ "' detected") var val (clock tick)
          :: env_vars_loop environ clock rest (S tick)
      | None => env_vars_loop environ clock rest tick
      end
  end.

Definition sensitive_vars : list string :=
  ["USER"; "USERNAME"; "HOME"; "USERPROFILE"; "HOSTNAME"; "COMPUTERNAME"]%string.

Definition _analyze_env_vars (environ : list (string * string))
  (clock : nat -> datetime) : list Signal :=
  env_vars_loop environ clock sensitive_vars 0.

(** *** TLSFingerprintAnalyzer: the fingerprint string *)

(** The handshake dictionary; an absent key reads as the empty list. *)
Record Handshake : Type := mkHandshake {
  cipher_suites : list Z;
  extensions : list Z;
  curves : list Z;
  signature_algorithms : list Z
}.

Definition _create_ja3_string (handshake : Handshake) : string :=
  let cipher_suites := join "," (map str_of_Z (cipher_suites handshake)) in
  let extensions := join "," (map str_of_Z (extensions handshake)) in
  let curves := join "," (map str_of_Z (curves handshake)) in
  let sig_algs := join "," (map str_of_Z (signature_algorithms handshake)) in
  (cipher_suites ++ "," ++ extensions ++ "," ++ curves ++ "," ++ sig_algs)%string.

(* ================================================================== *)
(** ** Further notions used to state the properties *)

(** The bands of confidence and of risk, in increasing order. *)
Definition confidence_rank (c : string) : nat :=
  if String.eqb c "CRITICAL" then 3
  else if String.eqb c "HIGH" then 2
  else if String.eqb c "MEDIUM" then 1
  else 0.

Definition risk_rank (r : string) : nat :=
  if String.eqb r "CRITICAL - OPSEC COMPROMISED" then 3
  else if String.eqb r "HIGH - ATTRIBUTION LIKELY" then 2
  else if String.eqb r "MEDIUM - CORRELATION POSSIBLE" then 1
  else 0.

(** [v[k]] on a serialized value. *)
Definition py_get (k : string) (v : pyvalue) : option pyvalue :=
  match v with
  | PyDict d => dict_lookup k d
  | _ => None
  end.

(** [var in os.environ]. *)
Definition is_set (environ : list (string * string)) (var : string) : bool :=
  match dict_lookup var environ with Some _ => true | None => false end.

(** The number of elements of [l] that satisfy [f]. *)
Definition count_if {A : Type} (f : A -> bool) (l : list A) : Z :=
  Z.of_nat (List.length (filter f l)).

(** The sum of the counts of a counter. *)
Definition total_count (d : list (string * Z)) : Z :=
  fold_right (fun kv acc => (snd kv + acc)%Z) 0%Z d.

(* ================================================================== *)
(** * Properties *)

(** ** Lists of layers *)

Lemma OpsecLayer_eqb_eq (a b : OpsecLayer) : OpsecLayer_eqb a b = true <-> a = b.
Proof.
  unfold OpsecLayer_eqb. destruct (OpsecLayer_eq_dec a b); split; congruence.
Qed.

Lemma all_layers_NoDup : NoDup all_layers.
Proof.
  unfold all_layers.
  repeat (constructor; [simpl; intuition discriminate|]). constructor.
Qed.

Lemma In_all_layers (l : OpsecLayer) : In l all_layers.
Proof. destruct l; simpl; tauto. Qed.

Lemma In_layer_set (g : list Signal) (l : OpsecLayer) :
  In l (layer_set g) <-> exists s, In s g /\ layer s = l.
Proof.
  unfold layer_set. rewrite nodup_In, in_map_iff.
  split; intros (s & H1 & H2); exists s; tauto.
Qed.

Lemma layer_set_NoDup (g : list Signal) : NoDup (layer_set g).
Proof. apply NoDup_nodup. Qed.

Lemma layer_set_count (g : list Signal) :
  List.length (layer_set g) = distinct_layer_count g.
Proof.
  unfold distinct_layer_count.
  apply Permutation_length, NoDup_Permutation.
  - apply layer_set_NoDup.
  - apply NoDup_filter, all_layers_NoDup.
  - intro l. rewrite In_layer_set, filter_In, existsb_exists.
    split.
    + intros (s & Hs & Hl). split; [apply In_all_layers|].
      exists s. split; [exact Hs|]. now apply OpsecLayer_eqb_eq.
    + intros (_ & s & Hs & Hl). exists s. split; [exact Hs|].
      now apply OpsecLayer_eqb_eq.
Qed.

Lemma spans_at_least_layer_set (n : nat) (g : list Signal) :
  spans_at_least n g <-> (n <= List.length (layer_set g))%nat.
Proof.
  split.
  - intros (ls & Hnd & Hlen & Hin). subst n.
    apply NoDup_incl_length; [exact Hnd|].
    intros l Hl. apply In_layer_set. now apply Hin.
  - intro Hle. exists (firstn n (layer_set g)). split; [|split].
    + pose proof (layer_set_NoDup g) as Hnd.
      rewrite <- (firstn_skipn n (layer_set g)) in Hnd.
      now apply NoDup_app_remove_r in Hnd.
    + rewrite length_firstn. lia.
    + intros l Hl. apply In_layer_set.
      rewrite <- (firstn_skipn n (layer_set g)). apply in_or_app. now left.
Qed.

(** ** Scoring primitives *)

Lemma sum_from (l : list Q) (a : Q) :
  (fold_left Qplus l a == a + fold_right Qplus 0 l)%Q.
Proof.
  revert a. induction l as [|x l IH]; intro a; simpl.
  - ring.
  - rewrite IH. ring.
Qed.

Lemma sum_base_scores (g : list Signal) :
  (sum (map (fun s => base_scores (correlation_potential s)) g)
   == fold_right (fun s acc => base_scores (correlation_potential s) + acc) 0 g)%Q.
Proof.
  unfold sum. rewrite sum_from.
  induction g as [|s g IH]; simpl.
  - ring.
  - simpl in IH. rewrite <- IH. ring.
Qed.

Lemma inject_Z_pred (z : Z) : (inject_Z (z - 1) == inject_Z z - 1)%Q.
Proof.
  unfold Z.sub. rewrite inject_Z_plus. reflexivity.
Qed.

Lemma calculate_correlation_score_formula (s : Signal) (rest : list Signal) :
  (calculate_correlation_score (s :: rest) == score_formula (s :: rest))%Q.
Proof.
  unfold calculate_correlation_score, score_formula, mean_strength.
  set (g := s :: rest).
  rewrite Q.min_comm.
  apply Q.min_compat; [reflexivity|].
  rewrite sum_base_scores, layer_set_count, inject_Z_pred.
  ring.
Qed.

Lemma base_scores_bounds (c : CorrelationStrength) :
  (0 <= base_scores c /\ base_scores c <= 1)%Q.
Proof. destruct c; simpl; lra. Qed.

Lemma strength_sum_bounds (g : list Signal) :
  (0 <= fold_right (fun s acc => base_scores (correlation_potential s) + acc) 0 g
   /\ fold_right (fun s acc => base_scores (correlation_potential s) + acc) 0 g
      <= inject_Z (Z.of_nat (List.length g)))%Q.
Proof.
  induction g as [|s g [IH0 IH1]].
  - simpl. split; [lra | apply Qle_refl].
  - cbn [fold_right List.length].
    rewrite Nat2Z.inj_succ. unfold Z.succ. rewrite inject_Z_plus.
    destruct (base_scores_bounds (correlation_potential s)) as [B0 B1].
    change (inject_Z 1) with 1%Q. lra.
Qed.

Lemma mean_strength_bounds (s : Signal) (rest : list Signal) :
  (0 <= mean_strength (s :: rest) /\ mean_strength (s :: rest) <= 1)%Q.
Proof.
  unfold mean_strength.
  destruct (strength_sum_bounds (s :: rest)) as [H0 H1].
  set (t := fold_right _ _ _) in *.
  set (n := inject_Z (Z.of_nat (List.length (s :: rest)))) in *.
  assert (Hn : (0 < n)%Q).
  { unfold n. change 0%Q with (inject_Z 0). rewrite <- Zlt_Qlt.
    simpl List.length. lia. }
  split.
  - apply Qle_shift_div_l; [exact Hn|]. lra.
  - apply Qle_shift_div_r; [exact Hn|]. lra.
Qed.

Lemma Qpower_unit_interval (x : Q) (n : nat) :
  (0 <= x)%Q -> (x <= 1)%Q -> (0 <= x ^ Z.of_nat n /\ x ^ Z.of_nat n <= 1)%Q.
Proof.
  intros H0 H1. induction n as [|n [IH0 IH1]].
  - simpl. split; lra.
  - rewrite Nat2Z.inj_succ. unfold Z.succ.
    rewrite Qpower_plus' by lia. rewrite Qpower_1_r.
    split.
    + apply Qmult_le_0_compat; assumption.
    + nra.
Qed.

Lemma layer_set_nonempty (s : Signal) (rest : list Signal) :
  (1 <= List.length (layer_set (s :: rest)))%nat.
Proof.
  apply spans_at_least_layer_set.
  exists [layer s]. split; [|split].
  - constructor; [simpl; tauto | constructor].
  - reflexivity.
  - intros l [<-|[]]. exists s. split; [now left | reflexivity].
Qed.

Lemma calculate_correlation_score_bounds (g : list Signal) :
  (0 <= calculate_correlation_score g /\ calculate_correlation_score g <= 1)%Q.
Proof.
  destruct g as [|s rest].
  - simpl. split; lra.
  - unfold calculate_correlation_score.
    set (g := s :: rest).
    set (avg := (sum _ / _)%Q).
    assert (Havg : (0 <= avg /\ avg <= 1)%Q).
    { unfold avg. rewrite sum_base_scores. apply (mean_strength_bounds s rest). }
    destruct Havg as [A0 A1].
    destruct (Qpower_unit_interval (1 - avg) (List.length g)) as [P0 P1];
      [lra | lra |].
    pose proof (layer_set_nonempty s rest) as HL. fold g in HL.
    assert (HM : (0 <= inject_Z (Z.of_nat (List.length (layer_set g)) - 1))%Q).
    { change 0%Q with (inject_Z 0). rewrite <- Zle_Qle. lia. }
    split.
    + apply Q.min_glb; [|lra].
      apply Qmult_le_0_compat; [lra|].
      set (m := inject_Z _) in *. lra.
    + apply Q.le_min_r.
Qed.

Lemma assess_attribution_confidence_cases (s : Q) :
  ((0.9 <= s)%Q /\ assess_attribution_confidence s = "CRITICAL"%string) \/
  ((0.7 <= s)%Q /\ (s < 0.9)%Q /\ assess_attribution_confidence s = "HIGH"%string) \/
  ((0.4 <= s)%Q /\ (s < 0.7)%Q /\ assess_attribution_confidence s = "MEDIUM"%string) \/
  ((s < 0.4)%Q /\ assess_attribution_confidence s = "LOW"%string).
Proof.
  unfold assess_attribution_confidence.
  destruct (Qle_bool 0.9 s) eqn:E1.
  { left. split; [now apply Qle_bool_iff | reflexivity]. }
  assert (s < 0.9)%Q.
  { apply Qnot_le_lt. intro H. apply Qle_bool_iff in H. congruence. }
  destruct (Qle_bool 0.7 s) eqn:E2.
  { right; left. repeat split; [now apply Qle_bool_iff | assumption]. }
  assert (s < 0.7)%Q.
  { apply Qnot_le_lt. intro H'. apply Qle_bool_iff in H'. congruence. }
  destruct (Qle_bool 0.4 s) eqn:E3.
  { right; right; left. repeat split; [now apply Qle_bool_iff | assumption]. }
  right; right; right. split; [|reflexivity].
  apply Qnot_le_lt. intro H'. apply Qle_bool_iff in H'. congruence.
Qed.

(** C1. [calculate_correlation_score] returns 0 on the empty list, through
    its explicit guard, and on a non-empty group the clamped value
    min(1, (1 - (1 - avg)^n) * (1 + 0.3 * (L - 1))), with [n] the group
    size, [avg] the mean base strength and [L] the number of distinct
    layers.  One SOLO signal scores 0.8, two SOLO signals of one layer 0.96,
    two SOLO signals of two layers 1. *)
Theorem calculate_correlation_score_spec :
  calculate_correlation_score [] = 0%Q /\
  (forall s rest,
     (calculate_correlation_score (s :: rest) == score_formula (s :: rest))%Q) /\
  (forall s,
     correlation_potential s = SOLO ->
     (calculate_correlation_score [s] == 0.8)%Q) /\
  (forall s1 s2,
     correlation_potential s1 = SOLO -> correlation_potential s2 = SOLO ->
     layer s1 = layer s2 ->
     (calculate_correlation_score [s1; s2] == 0.96)%Q) /\
  (forall s1 s2,
     correlation_potential s1 = SOLO -> correlation_potential s2 = SOLO ->
     layer s1 <> layer s2 ->
     (calculate_correlation_score [s1; s2] == 1)%Q).
Proof.
  split; [reflexivity|].
  split; [exact calculate_correlation_score_formula|].
  split; [|split].
  - intros s Hs. unfold calculate_correlation_score, layer_set.
    simpl. rewrite Hs. reflexivity.
  - intros s1 s2 H1 H2 HL.
    unfold calculate_correlation_score, layer_set.
    simpl map. rewrite H1, H2, HL.
    destruct (layer s2); reflexivity.
  - intros s1 s2 H1 H2 HL.
    unfold calculate_correlation_score, layer_set.
    simpl map. rewrite H1, H2.
    destruct (layer s1), (layer s2); try reflexivity; now elim HL.
Qed.

Lemma calculate_correlation_score_spec_witness :
  (calculate_correlation_score [signal_at "a" DNS 0 SOLO] == 0.8)%Q /\
  (calculate_correlation_score
     [signal_at "a" DNS 0 SOLO; signal_at "b" DNS 10 SOLO] == 0.96)%Q /\
  (calculate_correlation_score
     [signal_at "a" DNS 0 SOLO; signal_at "b" NETWORK 10 SOLO] == 1)%Q.
Proof.
  destruct calculate_correlation_score_spec as (_ & _ & H1 & H2 & H3).
  split; [|split].
  - apply H1. reflexivity.
  - apply H2; reflexivity.
  - apply H3; [reflexivity | reflexivity | discriminate].
Defined.

(** C2. [assess_attribution_confidence] returns CRITICAL exactly for scores
    of at least 0.9, HIGH exactly on [0.7, 0.9), MEDIUM exactly on
    [0.4, 0.7) and LOW exactly below 0.4; each boundary belongs to the
    higher band. *)
Theorem assess_attribution_confidence_bands :
  (forall s : Q,
     (assess_attribution_confidence s = "CRITICAL"%string <-> (0.9 <= s)%Q) /\
     (assess_attribution_confidence s = "HIGH"%string
      <-> (0.7 <= s)%Q /\ (s < 0.9)%Q) /\
     (assess_attribution_confidence s = "MEDIUM"%string
      <-> (0.4 <= s)%Q /\ (s < 0.7)%Q) /\
     (assess_attribution_confidence s = "LOW"%string <-> (s < 0.4)%Q)) /\
  assess_attribution_confidence 0.9 = "CRITICAL"%string /\
  assess_attribution_confidence 0.89999 = "HIGH"%string /\
  assess_attribution_confidence 0.7 = "HIGH"%string /\
  assess_attribution_confidence 0.4 = "MEDIUM"%string /\
  assess_attribution_confidence 0.39999 = "LOW"%string.
Proof.
  split; [|repeat split; reflexivity].
  intro s.
  destruct (assess_attribution_confidence_cases s)
    as [[H1 E]|[(H1 & H2 & E)|[(H1 & H2 & E)|[H1 E]]]];
    rewrite E; repeat split; intros; try discriminate; try lra.
Qed.

(** C3. [assess_risk_level] follows the precedence CRITICAL (confidence
    CRITICAL or count at least 4), then HIGH (confidence HIGH or count at
    least 3), then MEDIUM (confidence MEDIUM), then LOW; the count overrides
    a low confidence, and [risk(LOW, 5)] is the CRITICAL level. *)
Theorem assess_risk_level_precedence :
  (forall (c : string) (k : Z),
     let critical := c = "CRITICAL"%string \/ (4 <= k)%Z in
     let high := c = "HIGH"%string \/ (3 <= k)%Z in
     let medium := c = "MEDIUM"%string in
     (assess_risk_level c k = "CRITICAL - OPSEC COMPROMISED"%string
      <-> critical) /\
     (assess_risk_level c k = "HIGH - ATTRIBUTION LIKELY"%string
      <-> ~ critical /\ high) /\
     (assess_risk_level c k = "MEDIUM - CORRELATION POSSIBLE"%string
      <-> ~ critical /\ ~ high /\ medium) /\
     (assess_risk_level c k = "LOW - INSUFFICIENT CORRELATION"%string
      <-> ~ critical /\ ~ high /\ ~ medium)) /\
  (forall k : Z, (4 <= k)%Z ->
     assess_risk_level "LOW" k = "CRITICAL - OPSEC COMPROMISED"%string) /\
  assess_risk_level "LOW" 5 = "CRITICAL - OPSEC COMPROMISED"%string.
Proof.
  split; [|split; [|reflexivity]].
  - intros c k critical high medium. subst critical high medium.
    unfold assess_risk_level.
    destruct (String.eqb_spec c "CRITICAL"), (String.eqb_spec c "HIGH"),
      (String.eqb_spec c "MEDIUM"), (Z.leb_spec 4 k), (Z.leb_spec 3 k);
      cbn [orb]; subst;
      intuition (try discriminate; try lia; try congruence).
  - intros k Hk. unfold assess_risk_level.
    destruct (Z.leb_spec 4 k); [reflexivity | lia].
Qed.

Lemma assess_risk_level_precedence_witness :
  assess_risk_level "LOW" 7 = "CRITICAL - OPSEC COMPROMISED"%string.
Proof.
  destruct assess_risk_level_precedence as (_ & H & _).
  apply H. lia.
Defined.

(** ** Grouping with a [defaultdict(list)] *)

Section GroupBy.
Context {K V : Type} (eqb : K -> K -> bool).
Hypothesis eqb_eq : forall a b, eqb a b = true <-> a = b.
Variable key : V -> K.

Lemma group_by_snoc (vs : list V) (v : V) :
  group_by eqb key (vs ++ [v])
  = dict_append eqb (key v) v (group_by eqb key vs).
Proof. unfold group_by, group_into. now rewrite fold_left_app. Qed.

Lemma dict_append_keys (k : K) (v : V) (d : list (K * list V)) :
  (In k (map fst d) /\ map fst (dict_append eqb k v d) = map fst d) \/
  (~ In k (map fst d) /\ map fst (dict_append eqb k v d) = map fst d ++ [k]).
Proof.
  induction d as [|[k' l] d IH]; simpl.
  - right. split; [tauto | reflexivity].
  - destruct (eqb k' k) eqn:E.
    + apply eqb_eq in E. subst k'. left. simpl. split; [now left | reflexivity].
    + assert (k' <> k) by (intro; subst; rewrite (proj2 (eqb_eq k k) eq_refl) in E; discriminate).
      destruct IH as [[Hin Heq]|[Hin Heq]].
      * left. simpl. rewrite Heq. split; [now right | reflexivity].
      * right. simpl. rewrite Heq. split; [tauto | reflexivity].
Qed.

Lemma eqb_neq (a b : K) : eqb a b = false <-> a <> b.
Proof.
  split.
  - intros E H. apply eqb_eq in H. congruence.
  - intro H. destruct (eqb a b) eqn:E; [|reflexivity].
    apply eqb_eq in E. contradiction.
Qed.

Lemma dict_append_In (k : K) (v : V) (d : list (K * list V)) (k' : K) (l' : list V) :
  NoDup (map fst d) ->
  In (k', l') (dict_append eqb k v d) ->
  (k' <> k /\ In (k', l') d) \/
  (k' = k /\ exists l, In (k, l) d /\ l' = l ++ [v]) \/
  (k' = k /\ ~ In k (map fst d) /\ l' = [v]).
Proof.
  induction d as [|[k0 l0] d IH]; simpl; intro Hnd.
  - intros [H|[]]. inversion H; subst. right; right. tauto.
  - inversion Hnd as [|? ? Hk0 Hnd']; subst.
    destruct (eqb k0 k) eqn:E.
    + apply eqb_eq in E. subst k0. intros [H|H].
      * inversion H; subst. right; left. split; [reflexivity|].
        exists l0. split; [now left | reflexivity].
      * left. split; [|now right].
        intro; subst k'. apply Hk0.
        change k with (fst (k, l')). now apply in_map.
    + apply eqb_neq in E. intros [H|H].
      * inversion H; subst. left. split; [exact E | now left].
      * destruct (IH Hnd' H) as [[H1 H2]|[[H1 (l & H2 & H3)]|(H1 & H2 & H3)]].
        -- left. split; [exact H1 | now right].
        -- right; left. split; [exact H1|]. exists l. split; [now right | exact H3].
        -- right; right. split; [exact H1|]. split; [|exact H3].
           intros [H4|H4]; [now apply E | now apply H2].
Qed.

Lemma filter_snoc (f : V -> bool) (pre : list V) (v : V) :
  filter f (pre ++ [v]) = filter f pre ++ (if f v then [v] else []).
Proof. rewrite filter_app. reflexivity. Qed.

Lemma filter_none (f : V -> bool) (l : list V) :
  (forall v, In v l -> f v = false) -> filter f l = [].
Proof.
  induction l as [|x l IH]; intro H; simpl; [reflexivity|].
  rewrite (H x) by now left. apply IH. intros v Hv. apply H. now right.
Qed.

Lemma grouped_append (d : list (K * list V)) (pre : list V) (v : V) :
  grouped eqb key d pre ->
  grouped eqb key (dict_append eqb (key v) v d) (pre ++ [v]).
Proof.
  intros (Hnd & Hent & Hkeys).
  destruct (dict_append_keys (key v) v d) as [[Hin Heq]|[Hin Heq]].
  - split; [|split].
    + now rewrite Heq.
    + intros k l Hl. rewrite filter_snoc.
      destruct (dict_append_In _ _ _ _ _ Hnd Hl)
        as [[H1 H2]|[[H1 (l0 & H2 & H3)]|(H1 & H2 & H3)]].
      * destruct (Hent _ _ H2) as [E N].
        rewrite (proj2 (eqb_neq (key v) k)) by congruence.
        rewrite app_nil_r. tauto.
      * subst k l. destruct (Hent _ _ H2) as [E N].
        rewrite (proj2 (eqb_eq (key v) (key v)) eq_refl).
        split; [now rewrite <- E|]. now destruct l0.
      * contradiction.
    + intros v' Hv'. rewrite Heq. apply in_app_or in Hv'.
      destruct Hv' as [Hv'|[<-|[]]]; [now apply Hkeys | exact Hin].
  - split; [|split].
    + rewrite Heq. apply NoDup_app; [exact Hnd | constructor; [simpl; tauto | constructor] |].
      intros k Hk [<-|[]]. contradiction.
    + intros k l Hl. rewrite filter_snoc.
      destruct (dict_append_In _ _ _ _ _ Hnd Hl)
        as [[H1 H2]|[[H1 (l0 & H2 & H3)]|(H1 & H2 & H3)]].
      * destruct (Hent _ _ H2) as [E N].
        rewrite (proj2 (eqb_neq (key v) k)) by congruence.
        rewrite app_nil_r. tauto.
      * exfalso. apply Hin. change (key v) with (fst (key v, l0)).
        now apply in_map.
      * subst k l. rewrite (proj2 (eqb_eq (key v) (key v)) eq_refl).
        split; [|discriminate].
        rewrite filter_none; [reflexivity|].
        intros v' Hv'. apply eqb_neq. intro E. apply Hin.
        rewrite <- E. now apply Hkeys.
    + intros v' Hv'. rewrite Heq. apply in_or_app. apply in_app_or in Hv'.
      destruct Hv' as [Hv'|[<-|[]]]; [left; now apply Hkeys | right; now left].
Qed.

Lemma group_by_grouped (vs : list V) :
  grouped eqb key (group_by eqb key vs) vs.
Proof.
  induction vs as [|v vs IH] using rev_ind.
  - split; [constructor | split; intros; contradiction].
  - rewrite group_by_snoc. now apply grouped_append.
Qed.

Lemma group_by_keys_NoDup (vs : list V) :
  NoDup (map fst (group_by eqb key vs)).
Proof. apply group_by_grouped. Qed.

Lemma group_by_entry (vs : list V) (k : K) (l : list V) :
  In (k, l) (group_by eqb key vs) ->
  l = filter (fun v => eqb (key v) k) vs /\ l <> [].
Proof. apply group_by_grouped. Qed.

Lemma group_by_key_In (vs : list V) (k : K) :
  In k (map fst (group_by eqb key vs)) <-> exists v, In v vs /\ key v = k.
Proof.
  split.
  - intro H. apply in_map_iff in H. destruct H as ([k' l] & <- & H).
    destruct (group_by_entry _ _ _ H) as [E N]. simpl.
    destruct l as [|v l]; [contradiction|].
    assert (Hv : In v (v :: l)) by now left.
    rewrite E in Hv. apply filter_In in Hv. destruct Hv as [Hv Hk].
    exists v. split; [exact Hv | now apply eqb_eq].
  - intros (v & Hv & <-). now apply group_by_grouped.
Qed.

Lemma dict_get_spec (k : K) (d : list (K * list V)) :
  (exists l, In (k, l) d /\ dict_get eqb k d = l) \/
  (~ In k (map fst d) /\ dict_get eqb k d = []).
Proof.
  induction d as [|[k' l] d IH]; simpl.
  - right. tauto.
  - destruct (eqb k' k) eqn:E.
    + apply eqb_eq in E. subst k'. left. exists l. split; [now left | reflexivity].
    + apply eqb_neq in E. destruct IH as [(l0 & H1 & H2)|[H1 H2]].
      * left. exists l0. split; [now right | exact H2].
      * right. split; [tauto | exact H2].
Qed.

(** [d.get(k, [])] on the grouping is the sub-list of the values with key [k]. *)
Lemma dict_get_group_by (vs : list V) (k : K) :
  dict_get eqb k (group_by eqb key vs) = filter (fun v => eqb (key v) k) vs.
Proof.
  destruct (dict_get_spec k (group_by eqb key vs)) as [(l & H1 & H2)|[H1 H2]].
  - rewrite H2. now apply group_by_entry.
  - rewrite H2. symmetry. apply filter_none. intros v Hv.
    apply eqb_neq. intro E. apply H1. apply group_by_key_In. now exists v.
Qed.

(** Every entry is determined by its key. *)
Lemma group_by_values (vs : list V) :
  map snd (group_by eqb key vs)
  = map (fun k => filter (fun v => eqb (key v) k) vs)
        (map fst (group_by eqb key vs)).
Proof.
  rewrite map_map. apply map_ext_in. intros [k l] H.
  now apply group_by_entry.
Qed.
(** The grouping depends on the keys of the grouped values only. *)
Lemma group_by_ext_in (key' : V -> K) (vs : list V) :
  (forall v, In v vs -> key v = key' v) ->
  group_by eqb key vs = group_by eqb key' vs.
Proof.
  induction vs as [|v vs IH] using rev_ind; intro H; [reflexivity|].
  unfold group_by, group_into in *. rewrite !fold_left_app. simpl.
  rewrite IH by (intros x Hx; apply H, in_or_app; now left).
  now rewrite (H v) by (apply in_or_app; right; now left).
Qed.
End GroupBy.

Lemma group_by_layer_length (g : list Signal) :
  List.length (group_by OpsecLayer_eqb layer g) = List.length (layer_set g).
Proof.
  rewrite <- (length_map fst).
  apply Permutation_length, NoDup_Permutation.
  - apply group_by_keys_NoDup, OpsecLayer_eqb_eq.
  - apply layer_set_NoDup.
  - intro l. rewrite In_layer_set. apply group_by_key_In, OpsecLayer_eqb_eq.
Qed.

(** ** The results of the passes *)

Lemma correlate_group_consistent (g : list Signal) (ctype expl : string) :
  result_consistent (correlate_group g ctype expl).
Proof.
  unfold result_consistent, correlate_group. simpl.
  destruct (calculate_correlation_score_bounds g). tauto.
Qed.

Lemma spans_at_least_le (n m : nat) (g : list Signal) :
  (n <= m)%nat -> spans_at_least m g -> spans_at_least n g.
Proof.
  rewrite !spans_at_least_layer_set. lia.
Qed.

Lemma spans_two_length (g : list Signal) :
  spans_at_least 2 g -> (2 <= List.length g)%nat.
Proof.
  intro H. apply spans_at_least_layer_set in H.
  unfold layer_set in H.
  pose proof (NoDup_incl_length (NoDup_nodup OpsecLayer_eq_dec (map layer g))
                (l' := map layer g)) as Hl.
  rewrite length_map in Hl. etransitivity; [exact H|]. apply Hl.
  intros l Hin. now apply nodup_In in Hin.
Qed.

(** *** Temporal pass *)

Lemma temporal_bucket_cases (w : Z) (b : list Signal) :
  ((2 <= List.length b)%nat /\ spans_at_least 2 b /\
   exists expl, temporal_bucket w b = [correlate_group b "TEMPORAL" expl]) \/
  (~ ((2 <= List.length b)%nat /\ spans_at_least 2 b) /\ temporal_bucket w b = []).
Proof.
  unfold temporal_bucket. rewrite spans_at_least_layer_set.
  destruct (Nat.ltb_spec (List.length b) 2).
  - right. split; [lia | reflexivity].
  - destruct (Nat.ltb_spec (List.length (layer_set b)) 2).
    + right. split; [lia | reflexivity].
    + left. split; [assumption|]. split; [assumption|]. eexists. reflexivity.
Qed.

Lemma correlate_temporal_In (self : CorrelationEngine) (w : Z) (c : CorrelationResult) :
  In c (_correlate_temporal self w) ->
  exists b expl,
    c = correlate_group b "TEMPORAL" expl /\
    (2 <= List.length b)%nat /\ spans_at_least 2 b.
Proof.
  unfold _correlate_temporal. intro H. apply in_flat_map in H.
  destruct H as ([k b] & _ & H). simpl in H.
  destruct (temporal_bucket_cases w b) as [(H1 & H2 & expl & E)|[_ E]];
    rewrite E in H; [|contradiction].
  destruct H as [<-|[]]. exists b, expl. tauto.
Qed.

(** *** Cross-layer pass *)

Lemma nonempty_true {A : Type} (l : list A) : nonempty l = true <-> l <> [].
Proof. destruct l; simpl; split; congruence. Qed.

Lemma two_layer_group (la lb : OpsecLayer) (A B : list Signal) :
  la <> lb -> A <> [] -> B <> [] ->
  (forall s, In s A -> layer s = la) -> (forall s, In s B -> layer s = lb) ->
  (2 <= List.length (A ++ B))%nat /\ spans_at_least 2 (A ++ B).
Proof.
  intros Hab HA HB HlA HlB.
  assert (Hs : spans_at_least 2 (A ++ B)).
  { exists [la; lb]. split; [|split].
    - constructor; [simpl; intuition congruence|].
      constructor; [simpl; tauto | constructor].
    - reflexivity.
    - destruct A as [|a A]; [contradiction|]. destruct B as [|b B]; [contradiction|].
      intros l [<-|[<-|[]]].
      + exists a. split; [now left | apply HlA; now left].
      + exists b. split; [apply in_or_app; right; now left | apply HlB; now left]. }
  split; [now apply spans_two_length | exact Hs].
Qed.

Lemma layer_group_filter (g : list Signal) (l : OpsecLayer) (f : Signal -> bool) :
  filter f (dict_get OpsecLayer_eqb l (group_by OpsecLayer_eqb layer g))
  = filter (fun s => OpsecLayer_eqb (layer s) l && f s) g.
Proof.
  rewrite (dict_get_group_by _ OpsecLayer_eqb_eq).
  induction g as [|s g IH]; simpl; [reflexivity|].
  destruct (OpsecLayer_eqb (layer s) l); simpl; [|exact IH].
  destruct (f s); now rewrite IH.
Qed.

Lemma layer_filter_layer (g : list Signal) (l : OpsecLayer) (f : Signal -> bool) (s : Signal) :
  In s (filter (fun s => OpsecLayer_eqb (layer s) l && f s) g) -> layer s = l.
Proof.
  intro H. apply filter_In in H. destruct H as [_ H].
  apply andb_true_iff in H. now apply OpsecLayer_eqb_eq.
Qed.

(** The groups the two patterns look at. *)
Lemma correlate_cross_layer_eq (self : CorrelationEngine) :
  let sigs := self_signals self in
  let dns := filter (fun s => OpsecLayer_eqb (layer s) DNS && is_dns_resolver_signal s) sigs in
  let net := filter (fun s => OpsecLayer_eqb (layer s) NETWORK && is_as_signal s) sigs in
  let usr := filter (fun s => OpsecLayer_eqb (layer s) USERLAND && is_timezone_signal s) sigs in
  let met := filter (fun s => OpsecLayer_eqb (layer s) METADATA && is_timing_signal s) sigs in
  _correlate_cross_layer self
  = (if nonempty dns && nonempty net
     then [correlate_group (dns ++ net) "DNS_NETWORK_CORRELATION"
             "DNS resolver and network AS signals enable infrastructure correlation"]
     else [])
    ++ (if nonempty usr && nonempty met
        then [correlate_group (usr ++ met) "TIMEZONE_TIMING_CORRELATION"
                "Timezone and activity timing signals enable geographic/human attribution"]
        else []).
Proof.
  unfold _correlate_cross_layer. cbv zeta.
  now rewrite !layer_group_filter.
Qed.

Lemma correlate_cross_layer_In (self : CorrelationEngine) (c : CorrelationResult) :
  In c (_correlate_cross_layer self) ->
  exists g ctype expl,
    c = correlate_group g ctype expl /\
    (ctype = "DNS_NETWORK_CORRELATION" \/ ctype = "TIMEZONE_TIMING_CORRELATION")%string /\
    (2 <= List.length g)%nat /\ spans_at_least 2 g.
Proof.
  rewrite correlate_cross_layer_eq. cbv zeta. intro H.
  apply in_app_or in H. destruct H as [H|H].
  - destruct (nonempty _ && nonempty _) eqn:E in H; [|contradiction].
    destruct H as [<-|[]]. apply andb_true_iff in E. destruct E as [E1 E2].
    apply nonempty_true in E1, E2.
    do 3 eexists. split; [reflexivity|]. split; [now left|].
    apply (two_layer_group DNS NETWORK); try assumption; try discriminate;
      intros s; apply layer_filter_layer.
  - destruct (nonempty _ && nonempty _) eqn:E in H; [|contradiction].
    destruct H as [<-|[]]. apply andb_true_iff in E. destruct E as [E1 E2].
    apply nonempty_true in E1, E2.
    do 3 eexists. split; [reflexivity|]. split; [now right|].
    apply (two_layer_group USERLAND METADATA); try assumption; try discriminate;
      intros s; apply layer_filter_layer.
Qed.

(** *** Multi-signal convergence pass *)

(** No [.value] of [CorrelationStrength] is in the upper-case list. *)
Lemma potential_index_raises (s : Signal) : potential_index s = Raise ValueError.
Proof. unfold potential_index. now destruct (correlation_potential s). Qed.

(** On the member names the lookup succeeds, with WEAK first and SOLO last. *)
Lemma potential_name_index_total (s : Signal) :
  exists n, potential_name_index s = Ok n.
Proof.
  unfold potential_name_index.
  destruct (correlation_potential s); eexists; reflexivity.
Qed.

Section SortedFacts.
Context {A : Type}.

Lemma keys_of_raises (key : A -> result nat) (e : exn) (x : A) (l : list A) :
  key x = Raise e -> keys_of key (x :: l) = Raise e.
Proof. intro H. simpl. now rewrite H. Qed.

Lemma keys_of_Ok (key : A -> result nat) (l : list A) (ks : list (nat * A)) :
  keys_of key l = Ok ks ->
  map snd ks = l /\ forall k x, In (k, x) ks -> key x = Ok k.
Proof.
  revert ks. induction l as [|x l IH]; simpl; intros ks H.
  - inversion H. split; [reflexivity | intros ? ? []].
  - destruct (key x) as [k|e] eqn:Ek; simpl in H; [|discriminate].
    destruct (keys_of key l) as [rest|e] eqn:Er; simpl in H; [|discriminate].
    inversion H; subst ks. destruct (IH rest eq_refl) as [IH1 IH2].
    split; [simpl; now rewrite IH1|].
    intros k' x' [E|Hin]; [inversion E; now subst | now apply IH2].
Qed.

Lemma keys_of_total (key : A -> result nat) (l : list A) :
  (forall x, In x l -> exists n, key x = Ok n) ->
  exists ks, keys_of key l = Ok ks.
Proof.
  induction l as [|x l IH]; intro H; simpl.
  - eexists; reflexivity.
  - destruct (H x) as [n ->]; [now left|].
    destruct IH as [ks ->]; [intros y Hy; apply H; now right|].
    eexists; reflexivity.
Qed.

Lemma insert_keyed_Permutation (x : nat * A) (l : list (nat * A)) :
  Permutation (insert_keyed x l) (x :: l).
Proof.
  induction l as [|y l IH]; simpl; [reflexivity|].
  destruct (fst x <=? fst y)%nat; [reflexivity|].
  rewrite IH. apply perm_swap.
Qed.

Lemma sort_keyed_Permutation (l : list (nat * A)) :
  Permutation (sort_keyed l) l.
Proof.
  induction l as [|x l IH]; simpl; [reflexivity|].
  rewrite insert_keyed_Permutation. now constructor.
Qed.

(** The head of the sorted list carries a least key. *)
Lemma sort_keyed_head (l : list (nat * A)) (h : nat * A) (t : list (nat * A)) :
  sort_keyed l = h :: t -> forall y, In y l -> (fst h <= fst y)%nat.
Proof.
  revert h t. induction l as [|x l IH]; simpl; intros h t H y Hy; [contradiction|].
  destruct (sort_keyed l) as [|h' t'] eqn:E.
  - simpl in H. inversion H; subst.
    assert (l = []).
    { apply Permutation_nil. rewrite <- E. apply sort_keyed_Permutation. }
    subst l. destruct Hy as [<-|[]]. lia.
  - simpl in H. destruct (Nat.leb_spec (fst x) (fst h')).
    + inversion H; subst. destruct Hy as [<-|Hy]; [lia|].
      specialize (IH _ _ eq_refl y Hy). lia.
    + inversion H; subst. destruct Hy as [<-|Hy]; [lia|].
      exact (IH _ _ eq_refl y Hy).
Qed.

(** The sort is stable: that head is the first element of the list with
    the least key. *)
Lemma sort_keyed_head_first (l : list (nat * A)) (h : nat * A) (t : list (nat * A)) :
  sort_keyed l = h :: t ->
  exists pre post,
    l = pre ++ h :: post /\ forall y, In y pre -> (fst h < fst y)%nat.
Proof.
  revert h t. induction l as [|x l IH]; simpl; intros h t H; [discriminate|].
  destruct (sort_keyed l) as [|h' t'] eqn:E.
  - assert (l = []) by (apply Permutation_nil; rewrite <- E; apply sort_keyed_Permutation).
    subst l. simpl in H. inversion H; subst. exists [], []. split; [reflexivity | intros ? []].
  - simpl in H. destruct (IH _ _ eq_refl) as (pre & post & Hl & Hpre).
    destruct (Nat.leb_spec (fst x) (fst h')); inversion H; subst.
    + exists [], (pre ++ h' :: post). split; [reflexivity | intros ? []].
    + exists (x :: pre), post. split; [reflexivity|].
      intros y [<-|Hy]; [assumption | now apply Hpre].
Qed.

(** [sorted(l, key=k)[0]]: an element of [l] with a least key. *)
Lemma sorted_item0 (key : A -> result nat) (l sl : list A) (first : A) :
  sorted key l = Ok sl -> item0 sl = Ok first ->
  Permutation sl l /\ In first l /\
  exists kf, key first = Ok kf /\
    forall x kx, In x l -> key x = Ok kx -> (kf <= kx)%nat.
Proof.
  unfold sorted. intros Hs Hi.
  destruct (keys_of key l) as [ks|e] eqn:Ek; simpl in Hs; [|discriminate].
  inversion Hs; subst sl. clear Hs.
  destruct (keys_of_Ok _ _ _ Ek) as [Hmap Hkey].
  assert (Hperm : Permutation (map snd (sort_keyed ks)) l).
  { rewrite <- Hmap. apply Permutation_map, sort_keyed_Permutation. }
  split; [exact Hperm|].
  destruct (sort_keyed ks) as [|[kf f] t] eqn:E; simpl in Hi; [discriminate|].
  inversion Hi; subst f.
  assert (Hin : In (kf, first) ks).
  { apply (Permutation_in _ (sort_keyed_Permutation ks)). rewrite E. now left. }
  split.
  - rewrite <- Hmap. change first with (snd (kf, first)). now apply in_map.
  - exists kf. split; [now apply Hkey|].
    intros x kx Hx Hkx. rewrite <- Hmap in Hx. apply in_map_iff in Hx.
    destruct Hx as ([k' x'] & Hx' & Hin'). simpl in Hx'. subst x'.
    pose proof (Hkey _ _ Hin') as Hk'. rewrite Hkx in Hk'. inversion Hk'; subst k'.
    exact (sort_keyed_head ks _ _ E _ Hin').
Qed.

Lemma sorted_total (key : A -> result nat) (x : A) (l : list A) :
  (forall y, In y (x :: l) -> exists n, key y = Ok n) ->
  exists first sl, sorted key (x :: l) = Ok (first :: sl).
Proof.
  intro H. unfold sorted. destruct (keys_of_total key (x :: l) H) as [ks Ek].
  rewrite Ek. simpl.
  destruct (sort_keyed ks) as [|h t] eqn:E.
  - exfalso. destruct (keys_of_Ok _ _ _ Ek) as [Hmap _].
    assert (ks = []).
    { apply Permutation_nil. rewrite <- E. apply sort_keyed_Permutation. }
    subst ks. discriminate.
  - simpl. eexists _, _. reflexivity.
Qed.

Lemma sorted_raises (key : A -> result nat) (e : exn) (x : A) (l : list A) :
  key x = Raise e -> sorted key (x :: l) = Raise e.
Proof. intro H. unfold sorted. now rewrite (keys_of_raises key e x l H). Qed.
End SortedFacts.


Lemma representatives_Ok (key : Signal -> result nat)
  (groups : list (OpsecLayer * list Signal)) (reps : list Signal) :
  representatives key groups = Ok reps -> Forall2 (represents key) groups reps.
Proof.
  revert reps. induction groups as [|[l sigs] groups IH]; simpl; intros reps H.
  - inversion H. constructor.
  - destruct (sorted key sigs) as [sl|e] eqn:Es; simpl in H; [|discriminate].
    destruct (item0 sl) as [first|e] eqn:Ei; simpl in H; [|discriminate].
    destruct (representatives key groups) as [rest|e]; simpl in H; [|discriminate].
    inversion H; subst reps. constructor; [|now apply IH].
    destruct (sorted_item0 key sigs sl first Es Ei) as (_ & Hin & Hmin).
    split; assumption.
Qed.

Lemma representatives_total (key : Signal -> result nat)
  (groups : list (OpsecLayer * list Signal)) :
  (forall s, exists n, key s = Ok n) ->
  (forall g, In g groups -> snd g <> []) ->
  exists reps, representatives key groups = Ok reps.
Proof.
  intros Hkey. induction groups as [|[l sigs] groups IH]; simpl; intro Hne.
  - eexists; reflexivity.
  - assert (Hs : sigs <> []) by (apply (Hne (l, sigs)); now left).
    destruct sigs as [|x sigs]; [contradiction|].
    destruct (sorted_total key x sigs) as (first & sl & ->);
      [intros; apply Hkey|].
    destruct IH as [rest ->]; [intros g Hg; apply Hne; now right|].
    simpl. eexists; reflexivity.
Qed.

Lemma representatives_raises (key : Signal -> result nat) (e : exn)
  (g : OpsecLayer * list Signal) (groups : list (OpsecLayer * list Signal)) :
  (forall s, key s = Raise e) -> snd g <> [] ->
  representatives key (g :: groups) = Raise e.
Proof.
  intros Hkey Hne. destruct g as [l [|x sigs]]; [contradiction|].
  simpl representatives. now rewrite (sorted_raises key e x sigs (Hkey x)).
Qed.

Lemma layer_group_members (g : list Signal) (l : OpsecLayer) (sigs : list Signal)
  (s : Signal) :
  In (l, sigs) (group_by OpsecLayer_eqb layer g) -> In s sigs ->
  In s g /\ layer s = l.
Proof.
  intros H Hs.
  destruct (group_by_entry _ OpsecLayer_eqb_eq layer g l sigs H) as [E _].
  rewrite E in Hs. apply filter_In in Hs. destruct Hs as [Hs Hl].
  split; [exact Hs | now apply OpsecLayer_eqb_eq].
Qed.

Lemma layer_groups_nonempty (g : list Signal) (grp : OpsecLayer * list Signal) :
  In grp (group_by OpsecLayer_eqb layer g) -> snd grp <> [].
Proof.
  destruct grp as [l sigs]. intro H.
  now destruct (group_by_entry _ OpsecLayer_eqb_eq layer g l sigs H).
Qed.

(** One representative per layer group, in the order of the groups. *)
Lemma representatives_layers (key : Signal -> result nat)
  (groups : list (OpsecLayer * list Signal)) (reps : list Signal) :
  (forall l sigs s, In (l, sigs) groups -> In s sigs -> layer s = l) ->
  Forall2 (represents key) groups reps ->
  map layer reps = map fst groups.
Proof.
  intros Hl H. induction H as [|[l sigs] r groups reps [Hr _] _ IH]; [reflexivity|].
  simpl. f_equal.
  - apply (Hl l sigs); [now left | exact Hr].
  - apply IH. intros l' sigs' s Hin. apply Hl. now right.
Qed.

Lemma NoDup_layers_spans (reps : list Signal) :
  NoDup (map layer reps) -> spans_at_least (List.length reps) reps.
Proof.
  intro H. exists (map layer reps). split; [exact H|]. split; [apply length_map|].
  intros l Hl. apply in_map_iff in Hl. destruct Hl as (s & <- & Hs). now exists s.
Qed.

Lemma correlate_multi_signal_by_cases (key : Signal -> result nat) (g : list Signal) :
  let groups := group_by OpsecLayer_eqb layer g in
  ((List.length (layer_set g) < 3)%nat /\ correlate_multi_signal_by key g = Ok []) \/
  ((3 <= List.length (layer_set g))%nat /\
   ((exists e, representatives key groups = Raise e /\
               correlate_multi_signal_by key g = Raise e) \/
    (exists reps expl,
       representatives key groups = Ok reps /\
       correlate_multi_signal_by key g
       = Ok [correlate_group reps "MULTI_LAYER_CONVERGENCE" expl]))).
Proof.
  intro groups. unfold correlate_multi_signal_by. fold groups.
  pose proof (group_by_layer_length g) as Hlen. fold groups in Hlen.
  destruct (Nat.leb_spec 3 (List.length groups)) as [H3|H3].
  - right. split; [lia|].
    destruct (representatives key groups) as [reps|e] eqn:Er; cbn [bind].
    + right. exists reps.
      pose proof (Forall2_length (representatives_Ok _ _ _ Er)) as Hr.
      destruct (Nat.leb_spec 3 (List.length reps)); [|lia].
      eexists. split; reflexivity.
    + left. exists e. split; reflexivity.
  - left. split; [lia | reflexivity].
Qed.

(** Whatever the key, a result of the pass holds one signal of each of the
    layers present, and these are at least three. *)
Lemma correlate_multi_signal_by_In (key : Signal -> result nat) (g : list Signal)
  (cs : list CorrelationResult) (c : CorrelationResult) :
  correlate_multi_signal_by key g = Ok cs -> In c cs ->
  exists reps expl,
    c = correlate_group reps "MULTI_LAYER_CONVERGENCE" expl /\
    Forall2 (represents key) (group_by OpsecLayer_eqb layer g) reps /\
    Permutation (map layer reps) (layer_set g) /\
    (3 <= List.length reps)%nat /\ spans_at_least 3 reps.
Proof.
  intros H Hc.
  destruct (correlate_multi_signal_by_cases key g)
    as [[_ E]|[H3 [(e & _ & E)|(reps & expl & Er & E)]]];
    rewrite E in H; inversion H; subst cs; try contradiction.
  destruct Hc as [<-|[]]. exists reps, expl.
  pose proof (representatives_Ok _ _ _ Er) as HF.
  assert (Hmap : map layer reps = map fst (group_by OpsecLayer_eqb layer g)).
  { apply (representatives_layers key); [|exact HF].
    intros l sigs s Hin Hs. now apply (layer_group_members g l sigs). }
  assert (Hnd : NoDup (map layer reps)).
  { rewrite Hmap. apply group_by_keys_NoDup, OpsecLayer_eqb_eq. }
  assert (Hperm : Permutation (map layer reps) (layer_set g)).
  { apply NoDup_Permutation; [exact Hnd | apply layer_set_NoDup |].
    intro l. rewrite Hmap, In_layer_set. apply group_by_key_In, OpsecLayer_eqb_eq. }
  assert (Hlen : (3 <= List.length reps)%nat).
  { rewrite <- (length_map layer), (Permutation_length Hperm). exact H3. }
  repeat split; try assumption.
  apply (spans_at_least_le 3 (List.length reps)); [exact Hlen|].
  now apply NoDup_layers_spans.
Qed.

(** Under a key that never raises the pass emits exactly one result as soon
    as three layers are present. *)
Lemma correlate_multi_signal_by_total (key : Signal -> result nat) (g : list Signal) :
  (forall s, exists n, key s = Ok n) ->
  (3 <= List.length (layer_set g))%nat ->
  exists reps expl,
    correlate_multi_signal_by key g
    = Ok [correlate_group reps "MULTI_LAYER_CONVERGENCE" expl] /\
    Forall2 (represents key) (group_by OpsecLayer_eqb layer g) reps.
Proof.
  intros Hkey H3.
  destruct (correlate_multi_signal_by_cases key g)
    as [[Hlt _]|[_ [(e & Er & _)|(reps & expl & Er & E)]]]; [lia | |].
  - destruct (representatives_total key (group_by OpsecLayer_eqb layer g) Hkey)
      as [reps Hr]; [apply layer_groups_nonempty|]. congruence.
  - exists reps, expl. split; [exact E | now apply representatives_Ok].
Qed.

(** Under the source's key the first group already makes the loop raise. *)
Lemma representatives_potential_index (g : list Signal) :
  (1 <= List.length (layer_set g))%nat ->
  representatives potential_index (group_by OpsecLayer_eqb layer g)
  = Raise ValueError.
Proof.
  intro H. rewrite <- group_by_layer_length in H.
  destruct (group_by OpsecLayer_eqb layer g) as [|grp groups] eqn:Eg;
    [simpl in H; lia|].
  apply representatives_raises; [exact potential_index_raises|].
  apply (layer_groups_nonempty g). rewrite Eg. now left.
Qed.

(** What the source's key makes of the pass: [ValueError] as soon as three
    layers are present, no result otherwise. *)
Lemma correlate_multi_signal_cases (self : CorrelationEngine) :
  ((List.length (layer_set (self_signals self)) < 3)%nat /\
   _correlate_multi_signal self = Ok []) \/
  ((3 <= List.length (layer_set (self_signals self)))%nat /\
   _correlate_multi_signal self = Raise ValueError).
Proof.
  unfold _correlate_multi_signal.
  destruct (correlate_multi_signal_by_cases potential_index (self_signals self))
    as [[Hlt E]|[H3 [(e & Er & E)|(reps & expl & Er & _)]]].
  - left. tauto.
  - right. split; [exact H3|].
    rewrite representatives_potential_index in Er by lia. congruence.
  - rewrite representatives_potential_index in Er by lia. discriminate.
Qed.

(** *** correlate_all *)

Lemma correlate_all_cases (self : CorrelationEngine) :
  let sigs := self_signals self in
  let temporal := _correlate_temporal self default_time_window_seconds in
  let cross := _correlate_cross_layer self in
  ((List.length (layer_set sigs) < 3)%nat /\
   correlate_all self
   = (mkEngine sigs (temporal ++ cross ++ []), Ok (temporal ++ cross ++ []))) \/
  ((3 <= List.length (layer_set sigs))%nat /\
   correlate_all self = (mkEngine sigs (temporal ++ cross), Raise ValueError)).
Proof.
  cbv zeta. unfold correlate_all. cbv zeta.
  set (s2 := extend_correlations (extend_correlations _ _) _).
  destruct (correlate_multi_signal_cases s2) as [[H E]|[H E]]; rewrite E.
  - left. split; [exact H|]. unfold s2, extend_correlations. simpl.
    now rewrite <- app_assoc.
  - right. split; [exact H|]. reflexivity.
Qed.

(** The stored results after any call: those of the first two passes. *)
Lemma correlate_all_stored (self : CorrelationEngine) :
  self_correlations (fst (correlate_all self))
  = _correlate_temporal self default_time_window_seconds
    ++ _correlate_cross_layer self.
Proof.
  destruct (correlate_all_cases self) as [[_ E]|[_ E]]; rewrite E; simpl.
  - now rewrite app_nil_r.
  - reflexivity.
Qed.

Lemma correlate_all_returned (self : CorrelationEngine) (cs : list CorrelationResult) :
  snd (correlate_all self) = Ok cs ->
  cs = self_correlations (fst (correlate_all self)).
Proof.
  destruct (correlate_all_cases self) as [[_ E]|[_ E]]; rewrite E; simpl;
    intro H; [now inversion H | discriminate].
Qed.

Lemma correlate_all_signals (self : CorrelationEngine) :
  self_signals (fst (correlate_all self)) = self_signals self.
Proof.
  destruct (correlate_all_cases self) as [[_ E]|[_ E]]; now rewrite E.
Qed.

Lemma correlate_all_discards (sigs : list Signal) (old : list CorrelationResult) :
  correlate_all (mkEngine sigs old) = correlate_all (mkEngine sigs []).
Proof. reflexivity. Qed.

Lemma correlate_all_empty : correlate_all new_engine = (new_engine, Ok []).
Proof. reflexivity. Qed.

(** The call reads the accumulated signals only. *)
Lemma correlate_all_ext (a b : CorrelationEngine) :
  self_signals a = self_signals b -> correlate_all a = correlate_all b.
Proof.
  destruct a as [sa ca], b as [sb cb]. simpl. intros ->. reflexivity.
Qed.

(** Running the passes again on the engine a call leaves behind changes
    nothing. *)
Lemma correlate_all_again (self : CorrelationEngine) :
  correlate_all (fst (correlate_all self)) = correlate_all self.
Proof. apply correlate_all_ext, correlate_all_signals. Qed.

(** C6 (defect in the code).  The specification expects one MULTI_LAYER_CONVERGENCE
    result for signals of at least three layers.  On three signals of three
    layers the pass raises [ValueError] instead: the sort key looks the
    lower-case [.value] of the correlation potential up in the upper-case
    list [WEAK, MULTI, PAIR, SOLO].  With the key taken on the member names
    the same input gives the one result of three representatives that the
    specification describes. *)
Theorem correlate_multi_signal_three_layers :
  spans_at_least 3 three_layers /\
  _correlate_multi_signal (add_signals new_engine three_layers) = Raise ValueError /\
  exists reps expl,
    correlate_multi_signal_by potential_name_index three_layers
    = Ok [correlate_group reps "MULTI_LAYER_CONVERGENCE" expl] /\
    List.length reps = 3%nat.
Proof.
  split; [|split].
  - apply spans_at_least_layer_set. vm_compute. lia.
  - reflexivity.
  - do 2 eexists. split; reflexivity.
Qed.

(** C7 (defect in the code).  The specification has every call store and return the
    results of the three passes.  On three signals of three layers the call
    raises the [ValueError] of the multi-signal pass and returns nothing;
    the results of the first two passes (none here) are what is stored. *)
Theorem correlate_all_three_layers :
  _correlate_temporal (add_signals new_engine three_layers)
                      default_time_window_seconds = [] /\
  _correlate_cross_layer (add_signals new_engine three_layers) = [] /\
  correlate_all (add_signals new_engine three_layers)
  = (mkEngine three_layers [], Raise ValueError).
Proof. repeat split; reflexivity. Qed.

Lemma correlate_all_stored_consistent (self : CorrelationEngine) :
  Forall result_consistent (self_correlations (fst (correlate_all self))).
Proof.
  rewrite correlate_all_stored. apply Forall_app. split; apply Forall_forall; intros c Hc.
  - destruct (correlate_temporal_In _ _ _ Hc) as (b & expl & -> & _).
    apply correlate_group_consistent.
  - destruct (correlate_cross_layer_In _ _ Hc) as (g & ctype & expl & -> & _).
    apply correlate_group_consistent.
Qed.

(** C9. After every [correlate_all] call each stored result has its score
    in [0,1], its confidence equal to [assess_attribution_confidence] of
    that score, and its risk level equal to [assess_risk_level] of that
    confidence and the size of its group; the same holds of a returned
    sequence. *)
Theorem correlate_all_results_consistent :
  forall self : CorrelationEngine,
    Forall (fun c =>
              (0 <= correlation_score c)%Q /\ (correlation_score c <= 1)%Q /\
              attribution_confidence c
              = assess_attribution_confidence (correlation_score c) /\
              risk_level c
              = assess_risk_level (attribution_confidence c)
                                  (Z.of_nat (List.length (signals c))))
           (self_correlations (fst (correlate_all self))) /\
    match snd (correlate_all self) with
    | Ok cs => cs = self_correlations (fst (correlate_all self))
    | Raise _ => True
    end.
Proof.
  intro self. split.
  - exact (correlate_all_stored_consistent self).
  - destruct (snd (correlate_all self)) as [cs|e] eqn:E; [|exact I].
    now apply correlate_all_returned.
Qed.

(** C10. Every result [correlate_all] stores holds at least two signals of
    at least two distinct layers; a MULTI_LAYER_CONVERGENCE result spans at
    least three layers, and the multi-signal pass gives such results only,
    of at least three signals, whatever its sort key. *)
Theorem correlate_all_results_span :
  (forall self : CorrelationEngine,
     Forall (fun c =>
               (2 <= List.length (signals c))%nat /\
               spans_at_least 2 (signals c) /\
               (correlation_type c = "MULTI_LAYER_CONVERGENCE"%string ->
                spans_at_least 3 (signals c)))
            (self_correlations (fst (correlate_all self)))) /\
  (forall (key : Signal -> result nat) (g : list Signal),
     match correlate_multi_signal_by key g with
     | Ok cs =>
         Forall (fun c =>
                   correlation_type c = "MULTI_LAYER_CONVERGENCE"%string /\
                   (3 <= List.length (signals c))%nat /\
                   spans_at_least 3 (signals c)) cs
     | Raise _ => True
     end).
Proof.
  split.
  - intro self. rewrite correlate_all_stored.
    apply Forall_app. split; apply Forall_forall; intros c Hc.
    + destruct (correlate_temporal_In _ _ _ Hc) as (b & expl & -> & H2 & Hs).
      simpl. repeat split; try assumption. discriminate.
    + destruct (correlate_cross_layer_In _ _ Hc)
        as (g & ctype & expl & -> & Ht & H2 & Hs).
      simpl. repeat split; try assumption.
      destruct Ht as [-> | ->]; discriminate.
  - intros key g.
    destruct (correlate_multi_signal_by key g) as [cs|e] eqn:E; [|exact I].
    apply Forall_forall. intros c Hc.
    destruct (correlate_multi_signal_by_In key g cs c E Hc)
      as (reps & expl & -> & _ & _ & H3 & Hs).
    simpl. tauto.
Qed.

(** ** Substring tests *)

Lemma prefix_spec (a s : string) :
  String.prefix a s = true <-> exists post, s = (a ++ post)%string.
Proof.
  revert s. induction a as [|c a IH]; intro s.
  - simpl. destruct s; split; intros; try reflexivity; eexists; reflexivity.
  - destruct s as [|c' s]; simpl.
    + split; [discriminate | intros [post H]; discriminate].
    + destruct (ascii_dec c c') as [->|Hne].
      * rewrite IH. split; intros [post H]; exists post.
        -- now rewrite H.
        -- now inversion H.
      * split; [discriminate|]. intros [post H]. inversion H. congruence.
Qed.

Lemma str_in_contains (sub s : string) :
  str_in sub s = true <-> contains sub s.
Proof.
  unfold contains. induction s as [|c s IH].
  - cbn [str_in]. destruct (String.prefix sub "") eqn:E.
    + split; [|reflexivity]. intros _. apply prefix_spec in E.
      destruct E as [post E]. exists ""%string, post. exact E.
    + split; [discriminate|]. intros (pre & post & H).
      destruct pre as [|? ?]; [|discriminate]. simpl in H.
      assert (String.prefix sub "" = true) by (apply prefix_spec; now exists post).
      congruence.
  - cbn [str_in]. destruct (String.prefix sub (String c s)) eqn:E.
    + split; [|reflexivity]. intros _. apply prefix_spec in E.
      destruct E as [post E]. exists ""%string, post. exact E.
    + rewrite IH. split.
      * intros (pre & post & H). exists (String c pre), post. simpl. now rewrite H.
      * intros (pre & post & H). destruct pre as [|c' pre].
        -- simpl in H.
           assert (String.prefix sub (String c s) = true)
             by (apply prefix_spec; now exists post).
           congruence.
        -- simpl in H. inversion H. now exists pre, post.
Qed.

Lemma lower_ascii_a (c : ascii) :
  lower_ascii c = "a"%char <-> (c = "a" \/ c = "A")%char.
Proof.
  split.
  - destruct c as [[] [] [] [] [] [] [] []]; vm_compute; intro H;
      try discriminate; tauto.
  - intros [-> | ->]; reflexivity.
Qed.

Lemma lower_ascii_s (c : ascii) :
  lower_ascii c = "s"%char <-> (c = "s" \/ c = "S")%char.
Proof.
  split.
  - destruct c as [[] [] [] [] [] [] [] []]; vm_compute; intro H;
      try discriminate; tauto.
  - intros [-> | ->]; reflexivity.
Qed.

Lemma prefix_as_lower (s : string) :
  String.prefix "as" (lower s) = true <->
  exists c1 c2 post,
    s = String c1 (String c2 post) /\
    lower_ascii c1 = "a"%char /\ lower_ascii c2 = "s"%char.
Proof.
  destruct s as [|c1 [|c2 post]]; cbn [lower String.prefix].
  - split; [discriminate | intros (? & ? & ? & H & _); discriminate].
  - destruct (ascii_dec "a" (lower_ascii c1));
      (split; [discriminate | intros (? & ? & ? & H & _); discriminate]).
  - destruct (ascii_dec "a" (lower_ascii c1)) as [E1|E1].
    + destruct (ascii_dec "s" (lower_ascii c2)) as [E2|E2].
      * split; [|intros _; now destruct (lower post)].
        intros _. exists c1, c2, post. now rewrite <- E1, <- E2.
      * split; [discriminate|]. intros (? & ? & ? & H & _ & H2).
        inversion H; subst. congruence.
    + split; [discriminate|]. intros (? & ? & ? & H & H1 & _).
      inversion H; subst. congruence.
Qed.

Lemma str_in_as_lower (s : string) :
  str_in "as" (lower s) = true <-> contains_as_nocase s.
Proof.
  unfold contains_as_nocase.
  assert (Hhead : forall s,
    String.prefix "as" (lower s) = true <->
    exists c1 c2 post, s = String c1 (String c2 post) /\
      (c1 = "a" \/ c1 = "A")%char /\ (c2 = "s" \/ c2 = "S")%char).
  { intro t. rewrite prefix_as_lower.
    split; intros (c1 & c2 & post & H & H1 & H2); exists c1, c2, post;
      (split; [exact H|]); [rewrite <- lower_ascii_a, <- lower_ascii_s
                           | rewrite lower_ascii_a, lower_ascii_s]; tauto. }
  induction s as [|c s IH].
  - simpl. split; [discriminate|]. intros (pre & c1 & c2 & post & H & _).
    destruct pre; discriminate.
  - cbn [lower str_in]. change (String (lower_ascii c) (lower s)) with (lower (String c s)).
    destruct (String.prefix "as" (lower (String c s))) eqn:E.
    + split; [|reflexivity]. intros _. apply Hhead in E.
      destruct E as (c1 & c2 & post & H & H12). exists ""%string, c1, c2, post.
      split; [exact H | exact H12].
    + rewrite IH. split.
      * intros (pre & c1 & c2 & post & H & H12).
        exists (String c pre), c1, c2, post. split; [simpl; now rewrite H | exact H12].
      * intros (pre & c1 & c2 & post & H & H12). destruct pre as [|c' pre].
        -- simpl in H.
           assert (String.prefix "as" (lower (String c s)) = true).
           { apply Hhead. now exists c1, c2, post. }
           congruence.
        -- simpl in H. inversion H. now exists pre, c1, c2, post.
Qed.

Lemma is_dns_resolver_signal_spec (s : Signal) :
  is_dns_resolver_signal s = true <->
  contains "resolver" (signal_id s) \/ contains "public_resolver" (signal_id s).
Proof.
  unfold is_dns_resolver_signal. now rewrite orb_true_iff, !str_in_contains.
Qed.

Lemma is_as_signal_spec (s : Signal) :
  is_as_signal s = true <-> contains_as_nocase (signal_id s).
Proof. apply str_in_as_lower. Qed.

Lemma nonempty_filter {A : Type} (f : A -> bool) (l : list A) :
  nonempty (filter f l) = true <-> exists x, In x l /\ f x = true.
Proof.
  rewrite nonempty_true. split.
  - intro H. destruct (filter f l) as [|x t] eqn:E; [contradiction|].
    exists x. apply filter_In. rewrite E. now left.
  - intros (x & Hx) E. apply filter_In in Hx. rewrite E in Hx. contradiction.
Qed.

(** C5. The cross-layer pass emits exactly one DNS_NETWORK_CORRELATION
    result if and only if some DNS-layer signal has "resolver" or
    "public_resolver" in its identifier and some NETWORK-layer signal has
    "as" in its identifier in any letter case; the group of that result is
    the matching DNS signals followed by the matching NETWORK signals, each
    subset in the order of the accumulated signals, and when either subset
    is empty no such result is emitted. *)
Theorem cross_layer_dns_network :
  forall self : CorrelationEngine,
    let sigs := self_signals self in
    let dns_match := fun s =>
      layer s = DNS /\
      (contains "resolver" (signal_id s) \/
       contains "public_resolver" (signal_id s)) in
    let net_match := fun s =>
      layer s = NETWORK /\ contains_as_nocase (signal_id s) in
    let emitted :=
      filter (fun c => String.eqb (correlation_type c) "DNS_NETWORK_CORRELATION")
             (_correlate_cross_layer self) in
    let both :=
      (exists s, In s sigs /\ dns_match s) /\
      (exists s, In s sigs /\ net_match s) in
    exists is_dns is_net : Signal -> bool,
      (forall s, is_dns s = true <-> dns_match s) /\
      (forall s, is_net s = true <-> net_match s) /\
      (List.length emitted = 1%nat <-> both) /\
      (List.length emitted = 0%nat <-> ~ both) /\
      (both ->
       emitted
       = [correlate_group (filter is_dns sigs ++ filter is_net sigs)
            "DNS_NETWORK_CORRELATION"
            "DNS resolver and network AS signals enable infrastructure correlation"]) /\
      (filter is_dns sigs = [] \/ filter is_net sigs = [] -> emitted = []).
Proof.
  intros self sigs dns_match net_match emitted both.
  set (is_dns := fun s => OpsecLayer_eqb (layer s) DNS && is_dns_resolver_signal s).
  set (is_net := fun s => OpsecLayer_eqb (layer s) NETWORK && is_as_signal s).
  exists is_dns, is_net.
  assert (Hdns : forall s, is_dns s = true <-> dns_match s).
  { intro s. unfold is_dns, dns_match.
    now rewrite andb_true_iff, OpsecLayer_eqb_eq, is_dns_resolver_signal_spec. }
  assert (Hnet : forall s, is_net s = true <-> net_match s).
  { intro s. unfold is_net, net_match.
    now rewrite andb_true_iff, OpsecLayer_eqb_eq, is_as_signal_spec. }
  assert (Hem : emitted
    = if nonempty (filter is_dns sigs) && nonempty (filter is_net sigs)
      then [correlate_group (filter is_dns sigs ++ filter is_net sigs)
              "DNS_NETWORK_CORRELATION"
              "DNS resolver and network AS signals enable infrastructure correlation"]
      else []).
  { unfold emitted. rewrite correlate_cross_layer_eq. cbv zeta.
    fold sigs. fold is_dns. fold is_net. rewrite filter_app.
    destruct (nonempty (filter is_dns sigs) && nonempty (filter is_net sigs));
      destruct (nonempty _ && nonempty _); reflexivity. }
  assert (Hboth : nonempty (filter is_dns sigs) && nonempty (filter is_net sigs) = true
                  <-> both).
  { unfold both. rewrite andb_true_iff, !nonempty_filter.
    split; intros [(s1 & I1 & M1) (s2 & I2 & M2)];
      (split; [exists s1 | exists s2]); (split; [assumption|]);
      first [now apply Hdns | now apply Hnet]. }
  split; [exact Hdns|]. split; [exact Hnet|].
  destruct (nonempty (filter is_dns sigs) && nonempty (filter is_net sigs)) eqn:E.
  - assert (Hb : both) by now apply Hboth.
    rewrite Hem. split; [|split; [|split]].
    + split; [intros _; exact Hb | reflexivity].
    + split; [discriminate | intro H; contradiction].
    + reflexivity.
    + apply andb_true_iff in E. destruct E as [E1 E2].
      apply nonempty_true in E1, E2. intros [H|H]; contradiction.
  - assert (Hb : ~ both) by (intro Hb; apply Hboth in Hb; discriminate).
    rewrite Hem. split; [|split; [|split]].
    + split; [discriminate | intro H; contradiction].
    + split; [intros _; exact Hb | reflexivity].
    + intro H. contradiction.
    + reflexivity.
Qed.

Lemma cross_layer_dns_network_witness :
  List.length
    (filter (fun c => String.eqb (correlation_type c) "DNS_NETWORK_CORRELATION")
            (_correlate_cross_layer
               (add_signals new_engine
                  [ signal_at "dns_public_resolver" DNS 1705276800 PAIR;
                    signal_at "bgp_as_path" NETWORK 1705280400 PAIR ])))
  = 1%nat.
Proof.
  destruct (cross_layer_dns_network
              (add_signals new_engine
                 [ signal_at "dns_public_resolver" DNS 1705276800 PAIR;
                   signal_at "bgp_as_path" NETWORK 1705280400 PAIR ]))
    as (is_dns & is_net & _ & _ & H & _).
  apply H. split.
  - exists (signal_at "dns_public_resolver" DNS 1705276800 PAIR).
    split; [simpl; tauto|]. split; [reflexivity|].
    left. exists "dns_public_"%string, ""%string. reflexivity.
  - exists (signal_at "bgp_as_path" NETWORK 1705280400 PAIR).
    split; [simpl; tauto|]. split; [reflexivity|].
    exists "bgp_"%string, "a"%char, "s"%char, "_path"%string.
    split; [reflexivity|]. split; now left.
Defined.

(** ** Time buckets *)

Lemma bucket_key_quot (w : positive) (s : Signal) :
  bucket_key (Z.pos w) s = Z.quot (timestamp s) (Z.pos w * 1000000).
Proof.
  unfold bucket_key, int, datetime_timestamp, Qdiv, Qmult, Qinv, inject_Z.
  cbn [Qnum Qden]. f_equal; lia.
Qed.

Lemma floor_bucket_div (w : positive) (s : Signal) :
  floor_bucket (Z.pos w) s = Z.div (timestamp s) (Z.pos w * 1000000).
Proof.
  unfold floor_bucket, Qfloor, datetime_timestamp, Qdiv, Qmult, Qinv, inject_Z.
  cbn [Qnum Qden]. f_equal; lia.
Qed.

(** From the epoch on, truncation and floor agree. *)
Lemma bucket_key_floor_nonneg (w : positive) (s : Signal) :
  (0 <= timestamp s)%Z -> bucket_key (Z.pos w) s = floor_bucket (Z.pos w) s.
Proof.
  intro H. rewrite bucket_key_quot, floor_bucket_div.
  apply Z.quot_div_nonneg; lia.
Qed.

(** Before the epoch, truncation gives the next bucket up, unless the
    instant is on a bucket boundary. *)
Lemma bucket_key_floor_neg (w : positive) (s : Signal) :
  (timestamp s < 0)%Z -> (timestamp s mod (Z.pos w * 1000000) <> 0)%Z ->
  bucket_key (Z.pos w) s = (floor_bucket (Z.pos w) s + 1)%Z.
Proof.
  intros Hneg Hmod. rewrite bucket_key_quot, floor_bucket_div.
  set (m := (Z.pos w * 1000000)%Z) in *.
  assert (Hm : (0 < m)%Z) by (unfold m; lia).
  pose proof (Z.quot_rem' (timestamp s) m) as Hq.
  pose proof (Z.rem_bound_pos_neg (timestamp s) m Hm ltac:(lia)) as Hr.
  pose proof (Z.div_mod (timestamp s) m ltac:(lia)) as Hd.
  pose proof (Z.mod_pos_bound (timestamp s) m Hm) as Hb.
  nia.
Qed.

Lemma temporal_bucket_signals (w : Z) (l : list (Z * list Signal)) :
  map signals (flat_map (fun kb => temporal_bucket w (snd kb)) l)
  = filter (fun b => (2 <=? List.length b)%nat
                     && (2 <=? List.length (layer_set b))%nat)
           (map snd l).
Proof.
  induction l as [|[k b] l IH]; [reflexivity|].
  cbn [flat_map map filter snd]. rewrite map_app, IH. unfold temporal_bucket.
  destruct (Nat.ltb_spec (List.length b) 2), (Nat.leb_spec 2 (List.length b));
    try lia; [reflexivity|].
  destruct (Nat.ltb_spec (List.length (layer_set b)) 2),
    (Nat.leb_spec 2 (List.length (layer_set b))); try lia; reflexivity.
Qed.

(** The temporal pass on the keys the code computes: one bucket per key
    [int(timestamp / window)] that occurs, holding the signals of that key
    in order; one TEMPORAL result for each bucket of at least two signals
    and two layers, in the order of the buckets, and nothing else. *)
Lemma correlate_temporal_buckets (self : CorrelationEngine) (w : Z) :
  let sigs := self_signals self in
  let keys := map fst (group_by Z.eqb (bucket_key w) sigs) in
  let bucket := fun k => filter (fun s => Z.eqb (bucket_key w s) k) sigs in
  NoDup keys /\
  (forall k, In k keys <-> exists s, In s sigs /\ bucket_key w s = k) /\
  map signals (_correlate_temporal self w)
  = filter (fun b => (2 <=? List.length b)%nat
                     && (2 <=? List.length (layer_set b))%nat)
           (map bucket keys) /\
  Forall (fun c => correlation_type c = "TEMPORAL"%string)
         (_correlate_temporal self w).
Proof.
  cbv zeta. split; [|split; [|split]].
  - apply group_by_keys_NoDup, Z.eqb_eq.
  - intro k. apply group_by_key_In, Z.eqb_eq.
  - unfold _correlate_temporal. rewrite temporal_bucket_signals.
    now rewrite (group_by_values Z.eqb Z.eqb_eq).
  - apply Forall_forall. intros c Hc.
    now destruct (correlate_temporal_In _ _ _ Hc) as (b & expl & -> & _).
Qed.

(** From the epoch on the buckets are the floor buckets: for signals none
    of which is earlier than 1970-01-01T00:00:00Z the pass emits one
    TEMPORAL result for each bucket floor(timestamp / window) of at least
    two signals and two layers, and nothing else. *)
Lemma correlate_temporal_floor_buckets (self : CorrelationEngine) (w : positive) :
  let sigs := self_signals self in
  let keys := map fst (group_by Z.eqb (floor_bucket (Z.pos w)) sigs) in
  let bucket := fun k => filter (fun s => Z.eqb (floor_bucket (Z.pos w) s) k) sigs in
  Forall (fun s => (0 <= timestamp s)%Z) sigs ->
  NoDup keys /\
  (forall k, In k keys <-> exists s, In s sigs /\ floor_bucket (Z.pos w) s = k) /\
  map signals (_correlate_temporal self (Z.pos w))
  = filter (fun b => (2 <=? List.length b)%nat
                     && (2 <=? List.length (layer_set b))%nat)
           (map bucket keys).
Proof.
  cbv zeta. intro Hpos. rewrite Forall_forall in Hpos.
  split; [|split].
  - apply group_by_keys_NoDup, Z.eqb_eq.
  - intro k. apply group_by_key_In, Z.eqb_eq.
  - destruct (correlate_temporal_buckets self (Z.pos w)) as (_ & _ & E & _).
    rewrite E.
    rewrite (group_by_ext_in Z.eqb (bucket_key (Z.pos w)) (floor_bucket (Z.pos w)))
      by (intros s Hs; apply bucket_key_floor_nonneg; now apply Hpos).
    f_equal. apply map_ext. intro k. apply filter_ext_in. intros s Hs.
    now rewrite bucket_key_floor_nonneg by now apply Hpos.
Qed.

(** C4 (defect in the code).  The specification buckets by
    floor(timestamp / 300), so that two signals 400 seconds apart never
    share a bucket.  The code takes [int(timestamp / 300)], which truncates
    toward zero: the signals of [around_epoch], 200 seconds before and 200
    seconds after the epoch, lie in the floor buckets -1 and 0, get the
    key 0 both, and the pass reports them as having occurred within one
    300-second window. *)
Theorem correlate_temporal_around_epoch :
  (datetime_timestamp (timestamp (signal_at "route_change" NETWORK 200 PAIR))
   - datetime_timestamp (timestamp (signal_at "dns_leak" DNS (-200) PAIR))
   == 400)%Q /\
  map (floor_bucket 300) around_epoch = [-1; 0]%Z /\
  map (bucket_key 300) around_epoch = [0; 0]%Z /\
  _correlate_temporal (add_signals new_engine around_epoch)
                      default_time_window_seconds
  = [correlate_group around_epoch "TEMPORAL"
       "2 signals from 2 layers occurred within 300s window"].
Proof. repeat split; reflexivity. Qed.

(** ** Mitigation recommendations *)

Lemma key_eqb_eq (a b : string * string) : key_eqb a b = true <-> a = b.
Proof.
  destruct a as [a1 a2], b as [b1 b2]. unfold key_eqb. simpl.
  rewrite andb_true_iff, !String.eqb_eq. split.
  - intros [-> ->]. reflexivity.
  - intro H. inversion H. tauto.
Qed.

Lemma seen_In (k : string * string) (seen : list (string * string)) :
  existsb (key_eqb k) seen = true <-> In k seen.
Proof.
  rewrite existsb_exists. split.
  - intros (x & Hx & E). apply key_eqb_eq in E. now subst.
  - intro H. exists k. split; [exact H | now apply key_eqb_eq].
Qed.

Lemma unique_from_keys (seen : list (string * string)) (recs : list Recommendation) :
  NoDup (map rec_key (unique_from seen recs)) /\
  forall r, In r (unique_from seen recs) -> ~ In (rec_key r) seen.
Proof.
  revert seen. induction recs as [|r0 recs IH]; intro seen; simpl.
  - split; [constructor | intros ? []].
  - destruct (existsb (key_eqb (rec_key r0)) seen) eqn:E.
    + apply IH.
    + assert (Hr0 : ~ In (rec_key r0) seen).
      { intro H. apply seen_In in H. congruence. }
      destruct (IH (rec_key r0 :: seen)) as [IH1 IH2]. split.
      * simpl. constructor; [|exact IH1].
        intro H. apply in_map_iff in H. destruct H as (r & Hk & Hr).
        apply (IH2 r Hr). left. now symmetry.
      * intros r [<-|Hr]; [exact Hr0|].
        intro H. apply (IH2 r Hr). now right.
Qed.

Lemma unique_from_Subseq (seen : list (string * string)) (recs : list Recommendation) :
  Subseq (unique_from seen recs) recs.
Proof.
  revert seen. induction recs as [|r0 recs IH]; intro seen; simpl.
  - constructor.
  - destruct (existsb (key_eqb (rec_key r0)) seen); constructor; apply IH.
Qed.

Lemma unique_from_covers (seen : list (string * string)) (recs : list Recommendation)
  (r : Recommendation) :
  In r recs ->
  In (rec_key r) seen \/ In (rec_key r) (map rec_key (unique_from seen recs)).
Proof.
  revert seen. induction recs as [|r0 recs IH]; intros seen Hr; [contradiction|].
  simpl. destruct (existsb (key_eqb (rec_key r0)) seen) eqn:E.
  - destruct Hr as [<-|Hr]; [left; now apply seen_In | now apply IH].
  - destruct Hr as [<-|Hr]; [right; now left|].
    destruct (IH (rec_key r0 :: seen) Hr) as [[H|H]|H].
    + right. left. exact H.
    + now left.
    + right. now right.
Qed.

(** An entry is kept exactly when no earlier entry has its key. *)
Lemma unique_from_first (seen : list (string * string)) (recs : list Recommendation)
  (r : Recommendation) :
  In r (unique_from seen recs) <->
  exists pre post,
    recs = pre ++ r :: post /\
    ~ In (rec_key r) seen /\ ~ In (rec_key r) (map rec_key pre).
Proof.
  revert seen. induction recs as [|r0 recs IH]; intro seen; simpl.
  - split; [intros [] | intros (pre & post & H & _); now destruct pre].
  - destruct (existsb (key_eqb (rec_key r0)) seen) eqn:E.
    + apply seen_In in E. rewrite IH. split.
      * intros (pre & post & H & H1 & H2). exists (r0 :: pre), post.
        split; [simpl; now rewrite H|]. split; [exact H1|].
        intros [H3|H3]; [apply H1; now rewrite <- H3 | now apply H2].
      * intros (pre & post & H & H1 & H2). destruct pre as [|p pre].
        -- simpl in H. inversion H; subst. contradiction.
        -- simpl in H. inversion H; subst. exists pre, post.
           split; [reflexivity|]. split; [exact H1|].
           intro H3. apply H2. now right.
    + assert (Hr0 : ~ In (rec_key r0) seen).
      { intro H. apply seen_In in H. congruence. }
      simpl. rewrite IH. split.
      * intros [<-|(pre & post & H & H1 & H2)].
        -- exists [], recs. split; [reflexivity|]. split; [exact Hr0 | intros []].
        -- exists (r0 :: pre), post. split; [simpl; now rewrite H|].
           split; [intro H3; apply H1; now right|].
           intros [H3|H3]; [apply H1; now left | now apply H2].
      * intros (pre & post & H & H1 & H2). destruct pre as [|p pre].
        -- simpl in H. inversion H; subst. now left.
        -- simpl in H. inversion H; subst. right. exists pre, post.
           split; [reflexivity|]. split.
           ++ intros [H3|H3]; [apply H2; now left | now apply H1].
           ++ intro H3. apply H2. now right.
Qed.

Lemma recommendation_for_cases (c : CorrelationResult) :
  (recommendation_for c <> [] /\
   (correlation_type c = "DNS_NETWORK_CORRELATION" \/
    correlation_type c = "TIMEZONE_TIMING_CORRELATION" \/
    correlation_type c = "MULTI_LAYER_CONVERGENCE")%string) \/
  (recommendation_for c = [] /\
   correlation_type c <> "DNS_NETWORK_CORRELATION"%string /\
   correlation_type c <> "TIMEZONE_TIMING_CORRELATION"%string /\
   correlation_type c <> "MULTI_LAYER_CONVERGENCE"%string).
Proof.
  unfold recommendation_for.
  destruct (String.eqb_spec (correlation_type c) "DNS_NETWORK_CORRELATION");
    [left; split; [discriminate | tauto]|].
  destruct (String.eqb_spec (correlation_type c) "TIMEZONE_TIMING_CORRELATION");
    [left; split; [discriminate | tauto]|].
  destruct (String.eqb_spec (correlation_type c) "MULTI_LAYER_CONVERGENCE");
    [left; split; [discriminate | tauto]|].
  right. tauto.
Qed.

Lemma get_high_risk_correlations_In (self : CorrelationEngine) (c : CorrelationResult) :
  In c (get_high_risk_correlations self) <->
  In c (self_correlations self) /\
  (attribution_confidence c = "HIGH" \/ attribution_confidence c = "CRITICAL")%string.
Proof.
  unfold get_high_risk_correlations. rewrite filter_In. simpl.
  rewrite !orb_true_iff, !String.eqb_eq. intuition congruence.
Qed.

(** C8. [get_mitigation_recommendations] gives at most one entry per
    (priority, issue) pair, namely the first one of each pair among the
    entries derived, in their order, from the stored correlations of HIGH or
    CRITICAL confidence; only DNS_NETWORK_CORRELATION,
    TIMEZONE_TIMING_CORRELATION and MULTI_LAYER_CONVERGENCE results give an
    entry, a TEMPORAL result gives none; this holds in every engine state,
    and calling [correlate_all] again without [clear] leaves the
    recommendations as they were. *)
Theorem mitigation_recommendations_unique :
  forall self : CorrelationEngine,
    let raw := flat_map recommendation_for (get_high_risk_correlations self) in
    let recs := get_mitigation_recommendations self in
    NoDup (map rec_key recs) /\
    Subseq recs raw /\
    (forall r, In r recs <->
               exists pre post,
                 raw = pre ++ r :: post /\ ~ In (rec_key r) (map rec_key pre)) /\
    (forall r, In r raw -> In (rec_key r) (map rec_key recs)) /\
    (forall r, In r recs ->
               exists c,
                 In c (self_correlations self) /\
                 (attribution_confidence c = "HIGH" \/
                  attribution_confidence c = "CRITICAL")%string /\
                 (correlation_type c = "DNS_NETWORK_CORRELATION" \/
                  correlation_type c = "TIMEZONE_TIMING_CORRELATION" \/
                  correlation_type c = "MULTI_LAYER_CONVERGENCE")%string /\
                 In r (recommendation_for c)) /\
    (forall c, correlation_type c = "TEMPORAL"%string -> recommendation_for c = []) /\
    get_mitigation_recommendations (fst (correlate_all (fst (correlate_all self))))
    = get_mitigation_recommendations (fst (correlate_all self)).
Proof.
  intros self raw recs.
  assert (Hfirst : forall r, In r recs <->
            exists pre post,
              raw = pre ++ r :: post /\ ~ In (rec_key r) (map rec_key pre)).
  { intro r. unfold recs, get_mitigation_recommendations. fold raw.
    rewrite unique_from_first. split.
    - intros (pre & post & H & _ & H2). now exists pre, post.
    - intros (pre & post & H & H2). exists pre, post. simpl. tauto. }
  split; [apply unique_from_keys|].
  split; [apply unique_from_Subseq|].
  split; [exact Hfirst|].
  split; [|split; [|split]].
  - intros r Hr.
    destruct (unique_from_covers [] raw r Hr) as [[]|H]. exact H.
  - intros r Hr. apply Hfirst in Hr. destruct Hr as (pre & post & H & _).
    assert (Hin : In r raw) by (rewrite H; apply in_or_app; right; now left).
    unfold raw in Hin. apply in_flat_map in Hin. destruct Hin as (c & Hc & Hrc).
    apply get_high_risk_correlations_In in Hc. destruct Hc as [Hc Hconf].
    exists c. repeat split; try assumption.
    destruct (recommendation_for_cases c) as [[_ Ht]|[E _]]; [exact Ht|].
    rewrite E in Hrc. contradiction.
  - intros c Hc. unfold recommendation_for. now rewrite Hc.
  - now rewrite correlate_all_again.
Qed.

(** A TEMPORAL and a DNS_NETWORK_CORRELATION result of CRITICAL confidence
    are stored; the one recommendation is that of the latter. *)
Example mitigation_recommendations_example :
  let self :=
    fst (correlate_all
           (add_signals new_engine
              [ signal_at "dns_public_resolver" DNS 1705276800 SOLO;
                signal_at "as_path_mismatch" NETWORK 1705276810 SOLO ])) in
  map correlation_type (self_correlations self)
  = ["TEMPORAL"; "DNS_NETWORK_CORRELATION"]%string /\
  map rec_key (get_mitigation_recommendations self)
  = [("CRITICAL", "DNS resolver and network AS mismatch")]%string.
Proof. split; reflexivity. Qed.

(** ** The passes on the inputs of the specification's tests *)

(** From the epoch on, two signals a full window or more apart never share
    a bucket. *)
Lemma bucket_key_apart_nonneg (w : positive) (s1 s2 : Signal) :
  (0 <= timestamp s1)%Z ->
  (timestamp s1 + Z.pos w * 1000000 <= timestamp s2)%Z ->
  bucket_key (Z.pos w) s1 <> bucket_key (Z.pos w) s2.
Proof.
  intros H0 Hgap.
  rewrite !bucket_key_floor_nonneg, !floor_bucket_div by lia.
  set (m := (Z.pos w * 1000000)%Z) in *.
  assert (Hm : (0 < m)%Z) by (unfold m; lia).
  pose proof (Z.div_le_mono (timestamp s1 + 1 * m) (timestamp s2) m Hm ltac:(lia)) as Hle.
  rewrite Z.div_add in Hle by lia. lia.
Qed.

Example correlate_temporal_ten_seconds_apart :
  List.length
    (_correlate_temporal
       (add_signals new_engine
          [ signal_at "dns_leak" DNS 1705276800 PAIR;
            signal_at "route_change" NETWORK 1705276810 PAIR ])
       default_time_window_seconds) = 1%nat.
Proof. reflexivity. Qed.

Example correlate_temporal_400_seconds_apart :
  _correlate_temporal
    (add_signals new_engine
       [ signal_at "dns_leak" DNS 1705276800 PAIR;
         signal_at "route_change" NETWORK 1705277200 PAIR ])
    default_time_window_seconds = [].
Proof. reflexivity. Qed.

(* ================================================================== *)
(** * Further properties of the code *)

(** ** Scoring primitives *)









(** X3. A higher score never gives a lower confidence band. *)
Theorem assess_attribution_confidence_monotone :
  forall s s' : Q,
    (s <= s')%Q ->
    (confidence_rank (assess_attribution_confidence s)
     <= confidence_rank (assess_attribution_confidence s'))%nat.
Proof.
  intros s s' H.
  destruct (assess_attribution_confidence_cases s)
    as [[H1 E]|[(H1 & H2 & E)|[(H1 & H2 & E)|[H1 E]]]];
  destruct (assess_attribution_confidence_cases s')
    as [[H1' E']|[(H1' & H2' & E')|[(H1' & H2' & E')|[H1' E']]]];
  rewrite E, E'; cbn; try lia; exfalso; lra.
Qed.

Lemma assess_attribution_confidence_monotone_witness :
  (confidence_rank (assess_attribution_confidence 0.5)
   <= confidence_rank (assess_attribution_confidence 0.95))%nat.
Proof.
  apply assess_attribution_confidence_monotone. lra.
Defined.

(** X4. The risk level is never below the confidence band it is computed
    from, and a larger signal count never lowers it. *)
Theorem assess_risk_level_monotone :
  (forall (c : string) (k : Z),
     (confidence_rank c <= risk_rank (assess_risk_level c k))%nat) /\
  (forall (c : string) (k k' : Z),
     (k <= k')%Z ->
     (risk_rank (assess_risk_level c k)
      <= risk_rank (assess_risk_level c k'))%nat).
Proof.
  split.
  - intros c k. unfold assess_risk_level, confidence_rank.
    destruct (String.eqb c "CRITICAL"), (String.eqb c "HIGH"),
      (String.eqb c "MEDIUM"), (4 <=? k)%Z, (3 <=? k)%Z; cbn; lia.
  - intros c k k' H. unfold assess_risk_level.
    destruct (String.eqb c "CRITICAL"), (String.eqb c "HIGH"),
      (String.eqb c "MEDIUM"),
      (Z.leb_spec 4 k), (Z.leb_spec 3 k), (Z.leb_spec 4 k'), (Z.leb_spec 3 k');
      cbn; lia.
Qed.

Lemma assess_risk_level_monotone_witness :
  (risk_rank (assess_risk_level "LOW" 2)
   <= risk_rank (assess_risk_level "LOW" 3))%nat.
Proof.
  destruct assess_risk_level_monotone as [_ H]. apply H. lia.
Defined.

(** ** The analyzer base class *)

Lemma add_each_snoc (self : OpsecAnalyzer) (sigs : list Signal) (s : Signal) :
  add_each self (sigs ++ [s]) = fst (add_signal (add_each self sigs) s).
Proof. unfold add_each. now rewrite fold_left_app. Qed.

Lemma add_each_new (l : OpsecLayer) (sigs : list Signal) :
  add_each (new_analyzer l) sigs
  = mkAnalyzer l (filter (fun s => OpsecLayer_eqb (layer s) l) sigs).
Proof.
  induction sigs as [|s sigs IH] using rev_ind; [reflexivity|].
  rewrite add_each_snoc, IH, filter_app. unfold add_signal. simpl.
  destruct (OpsecLayer_eqb (layer s) l); simpl; [reflexivity|].
  now rewrite app_nil_r.
Qed.

(** X5. [add_signal] stores a signal of the analyzer's layer at the end and
    rejects any other with [ValueError], leaving the analyzer as it was; an
    analyzer filled through [add_signal] holds, in order, exactly the
    offered signals of its own layer. *)
Theorem add_signal_keeps_layer :
  (forall self s,
     layer s = analyzer_layer self ->
     add_signal self s
     = (mkAnalyzer (analyzer_layer self) (analyzer_signals self ++ [s]), Ok tt)) /\
  (forall self s,
     layer s <> analyzer_layer self ->
     add_signal self s = (self, Raise ValueError)) /\
  (forall l sigs,
     analyzer_layer (add_each (new_analyzer l) sigs) = l /\
     get_signals (add_each (new_analyzer l) sigs)
     = filter (fun s => OpsecLayer_eqb (layer s) l) sigs /\
     Forall (fun s => layer s = l) (get_signals (add_each (new_analyzer l) sigs))).
Proof.
  split; [|split].
  - intros self s H. unfold add_signal.
    now rewrite (proj2 (OpsecLayer_eqb_eq _ _) H).
  - intros self s H. unfold add_signal.
    destruct (OpsecLayer_eqb (layer s) (analyzer_layer self)) eqn:E; [|reflexivity].
    apply OpsecLayer_eqb_eq in E. contradiction.
  - intros l sigs. rewrite add_each_new. simpl.
    split; [reflexivity|]. split; [reflexivity|].
    apply Forall_forall. intros s Hs. apply filter_In in Hs.
    now apply OpsecLayer_eqb_eq.
Qed.

Lemma add_signal_keeps_layer_witness :
  add_signal (new_analyzer DNS) (signal_at "route_change" NETWORK 0 PAIR)
  = (new_analyzer DNS, Raise ValueError) /\
  add_signal (new_analyzer DNS) (signal_at "dns_leak" DNS 0 PAIR)
  = (mkAnalyzer DNS [signal_at "dns_leak" DNS 0 PAIR], Ok tt).
Proof.
  destruct add_signal_keeps_layer as (H1 & H2 & _). split.
  - apply H2. discriminate.
  - apply (H1 (new_analyzer DNS)). reflexivity.
Defined.

(** ** Life cycle of the engine *)

(** X6. [correlate_all] leaves the accumulated signals as they are, does
    not depend on the correlations stored before, and a second call without
    new signals gives the same outcome and the same engine. *)
Theorem correlate_all_idempotent :
  forall self : CorrelationEngine,
    self_signals (fst (correlate_all self)) = self_signals self /\
    correlate_all (mkEngine (self_signals self) []) = correlate_all self /\
    correlate_all (fst (correlate_all self)) = correlate_all self.
Proof.
  intro self. split; [apply correlate_all_signals|]. split.
  - now apply correlate_all_ext.
  - apply correlate_all_again.
Qed.

Lemma layer_set_app_le (a b : list Signal) :
  (List.length (layer_set a) <= List.length (layer_set (a ++ b)))%nat.
Proof.
  apply NoDup_incl_length; [apply layer_set_NoDup|].
  intros l Hl. apply In_layer_set in Hl. destruct Hl as (s & Hs & E).
  apply In_layer_set. exists s. split; [apply in_or_app; now left | exact E].
Qed.

(** X7. [correlate_all] raises [ValueError] exactly when the accumulated
    signals span three layers or more; from then on it raises after every
    further [add_signals], and returns normally again after [clear]. *)
Theorem correlate_all_raises_iff :
  (forall self,
     snd (correlate_all self) = Raise ValueError
     <-> spans_at_least 3 (self_signals self)) /\
  (forall self,
     (exists cs, snd (correlate_all self) = Ok cs)
     <-> ~ spans_at_least 3 (self_signals self)) /\
  (forall self batch,
     snd (correlate_all self) = Raise ValueError ->
     snd (correlate_all (add_signals self batch)) = Raise ValueError) /\
  (forall self, correlate_all (clear self) = (new_engine, Ok [])).
Proof.
  assert (H1 : forall self,
     snd (correlate_all self) = Raise ValueError
     <-> spans_at_least 3 (self_signals self)).
  { intro self. rewrite spans_at_least_layer_set.
    destruct (correlate_all_cases self) as [[H E]|[H E]]; rewrite E; simpl.
    - split; [discriminate | lia].
    - split; [intros _; exact H | reflexivity]. }
  split; [exact H1|]. split; [|split].
  - intro self. rewrite <- H1.
    destruct (snd (correlate_all self)) as [cs|e] eqn:E.
    + split; [discriminate | intros _; now exists cs].
    + assert (e = ValueError).
      { destruct (correlate_all_cases self) as [[_ E']|[_ E']];
          rewrite E' in E; simpl in E; congruence. }
      subst e. split; [intros [cs Hcs]; discriminate | intro H; now elim H].
  - intros self batch H. apply H1 in H. apply H1.
    apply spans_at_least_layer_set in H. apply spans_at_least_layer_set.
    simpl. etransitivity; [exact H | apply layer_set_app_le].
  - reflexivity.
Qed.

Lemma correlate_all_raises_iff_witness :
  snd (correlate_all
         (add_signals (add_signals new_engine three_layers)
                      [signal_at "late" KERNEL 1705290000 WEAK]))
  = Raise ValueError.
Proof.
  destruct correlate_all_raises_iff as (_ & _ & H & _).
  apply H. reflexivity.
Defined.

(** ** Adding signals *)

Section GroupByApp.
Context {K V : Type} (eqb : K -> K -> bool).
Hypothesis eqb_eq : forall a b, eqb a b = true <-> a = b.
Variable key : V -> K.

(** The keys met so far stay where they are when further values go in. *)
Lemma group_by_app_keys (vs b : list V) :
  exists extra,
    map fst (group_by eqb key (vs ++ b))
    = map fst (group_by eqb key vs) ++ extra.
Proof.
  induction b as [|v b IH] using rev_ind.
  - exists []. now rewrite !app_nil_r.
  - destruct IH as [extra IH]. rewrite app_assoc, group_by_snoc.
    destruct (dict_append_keys eqb eqb_eq key (key v) v (group_by eqb key (vs ++ b)))
      as [[_ E]|[_ E]]; rewrite E, IH.
    + now exists extra.
    + exists (extra ++ [key v]). now rewrite app_assoc.
Qed.
End GroupByApp.

Lemma filter_map_length_le {A B : Type} (q : B -> bool) (f g : A -> B)
  (l : list A) :
  (forall x, q (f x) = true -> q (g x) = true) ->
  (List.length (filter q (map f l)) <= List.length (filter q (map g l)))%nat.
Proof.
  intro H. induction l as [|x l IH]; simpl; [lia|].
  destruct (q (f x)) eqn:E.
  - rewrite (H x E). simpl. lia.
  - destruct (q (g x)); simpl; lia.
Qed.

Lemma qualifies_app (a b : list Signal) :
  (2 <=? List.length a)%nat && (2 <=? List.length (layer_set a))%nat = true ->
  (2 <=? List.length (a ++ b))%nat
  && (2 <=? List.length (layer_set (a ++ b)))%nat = true.
Proof.
  rewrite !andb_true_iff, !Nat.leb_le, length_app.
  pose proof (layer_set_app_le a b). lia.
Qed.

Lemma correlate_temporal_app_le (self : CorrelationEngine) (batch : list Signal)
  (w : Z) :
  (List.length (_correlate_temporal self w)
   <= List.length (_correlate_temporal (add_signals self batch) w))%nat.
Proof.
  rewrite <- (length_map signals (_correlate_temporal self w)).
  rewrite <- (length_map signals (_correlate_temporal (add_signals self batch) w)).
  destruct (correlate_temporal_buckets self w) as (_ & _ & E & _).
  destruct (correlate_temporal_buckets (add_signals self batch) w) as (_ & _ & E' & _).
  rewrite E, E'. simpl self_signals.
  destruct (group_by_app_keys Z.eqb Z.eqb_eq (bucket_key w) (self_signals self) batch)
    as [extra ->].
  rewrite map_app, filter_app, length_app.
  etransitivity; [|apply Nat.le_add_r].
  apply filter_map_length_le. intros k H.
  rewrite filter_app. now apply qualifies_app.
Qed.

Lemma nonempty_filter_app {A : Type} (f : A -> bool) (a b : list A) :
  nonempty (filter f a) = true -> nonempty (filter f (a ++ b)) = true.
Proof.
  rewrite filter_app. destruct (filter f a); [discriminate | reflexivity].
Qed.

Lemma correlate_cross_layer_app_le (self : CorrelationEngine) (batch : list Signal) :
  (List.length (_correlate_cross_layer self)
   <= List.length (_correlate_cross_layer (add_signals self batch)))%nat.
Proof.
  rewrite !correlate_cross_layer_eq. cbv zeta. simpl self_signals.
  rewrite !length_app.
  apply Nat.add_le_mono;
    (destruct (nonempty _ && nonempty _) eqn:E at 1; [|simpl; lia]);
    apply andb_true_iff in E; destruct E as [E1 E2];
    rewrite (nonempty_filter_app _ _ batch E1), (nonempty_filter_app _ _ batch E2);
    simpl; lia.
Qed.

(** X8. Adding signals never loses a correlation of the first two passes:
    the temporal pass gives at least as many results as before, and so does
    the cross-layer pass. *)
Theorem add_signals_keeps_correlations :
  forall (self : CorrelationEngine) (batch : list Signal) (w : Z),
    (List.length (_correlate_temporal self w)
     <= List.length (_correlate_temporal (add_signals self batch) w))%nat /\
    (List.length (_correlate_cross_layer self)
     <= List.length (_correlate_cross_layer (add_signals self batch)))%nat /\
    (List.length (self_correlations (fst (correlate_all self)))
     <= List.length
          (self_correlations (fst (correlate_all (add_signals self batch)))))%nat.
Proof.
  intros self batch w.
  pose proof (correlate_temporal_app_le self batch) as HT.
  pose proof (correlate_cross_layer_app_le self batch) as HC.
  split; [apply HT|]. split; [exact HC|].
  rewrite !correlate_all_stored, !length_app.
  specialize (HT default_time_window_seconds). lia.
Qed.

(** ** The cross-layer pass *)

Lemma is_timezone_signal_spec (s : Signal) :
  is_timezone_signal s = true <->
  contains "timezone" (signal_id s) \/ contains "locale" (signal_id s).
Proof.
  unfold is_timezone_signal. now rewrite orb_true_iff, !str_in_contains.
Qed.

Lemma is_timing_signal_spec (s : Signal) :
  is_timing_signal s = true <->
  contains "time" (signal_id s) \/ contains "timing" (signal_id s).
Proof.
  unfold is_timing_signal. now rewrite orb_true_iff, !str_in_contains.
Qed.

(** X9. The cross-layer pass emits exactly one TIMEZONE_TIMING_CORRELATION
    result if and only if some USERLAND signal has "timezone" or "locale" in
    its identifier and some METADATA signal has "time" or "timing" in its
    identifier, letter case counting; the group of that result is the
    matching USERLAND signals followed by the matching METADATA signals, and
    when either subset is empty no such result is emitted. *)
Theorem cross_layer_timezone_timing :
  forall self : CorrelationEngine,
    let sigs := self_signals self in
    let usr_match := fun s =>
      layer s = USERLAND /\
      (contains "timezone" (signal_id s) \/ contains "locale" (signal_id s)) in
    let met_match := fun s =>
      layer s = METADATA /\
      (contains "time" (signal_id s) \/ contains "timing" (signal_id s)) in
    let emitted :=
      filter (fun c => String.eqb (correlation_type c) "TIMEZONE_TIMING_CORRELATION")
             (_correlate_cross_layer self) in
    let both :=
      (exists s, In s sigs /\ usr_match s) /\
      (exists s, In s sigs /\ met_match s) in
    exists is_usr is_met : Signal -> bool,
      (forall s, is_usr s = true <-> usr_match s) /\
      (forall s, is_met s = true <-> met_match s) /\
      (List.length emitted = 1%nat <-> both) /\
      (List.length emitted = 0%nat <-> ~ both) /\
      (both ->
       emitted
       = [correlate_group (filter is_usr sigs ++ filter is_met sigs)
            "TIMEZONE_TIMING_CORRELATION"
            "Timezone and activity timing signals enable geographic/human attribution"]) /\
      (filter is_usr sigs = [] \/ filter is_met sigs = [] -> emitted = []).
Proof.
  intros self sigs usr_match met_match emitted both.
  set (is_usr := fun s => OpsecLayer_eqb (layer s) USERLAND && is_timezone_signal s).
  set (is_met := fun s => OpsecLayer_eqb (layer s) METADATA && is_timing_signal s).
  exists is_usr, is_met.
  assert (Husr : forall s, is_usr s = true <-> usr_match s).
  { intro s. unfold is_usr, usr_match.
    now rewrite andb_true_iff, OpsecLayer_eqb_eq, is_timezone_signal_spec. }
  assert (Hmet : forall s, is_met s = true <-> met_match s).
  { intro s. unfold is_met, met_match.
    now rewrite andb_true_iff, OpsecLayer_eqb_eq, is_timing_signal_spec. }
  assert (Hem : emitted
    = if nonempty (filter is_usr sigs) && nonempty (filter is_met sigs)
      then [correlate_group (filter is_usr sigs ++ filter is_met sigs)
              "TIMEZONE_TIMING_CORRELATION"
              "Timezone and activity timing signals enable geographic/human attribution"]
      else []).
  { unfold emitted. rewrite correlate_cross_layer_eq. cbv zeta.
    fold sigs. fold is_usr. fold is_met. rewrite filter_app.
    destruct (nonempty (filter is_usr sigs) && nonempty (filter is_met sigs));
      destruct (nonempty _ && nonempty _); reflexivity. }
  assert (Hboth : nonempty (filter is_usr sigs) && nonempty (filter is_met sigs) = true
                  <-> both).
  { unfold both. rewrite andb_true_iff, !nonempty_filter.
    split; intros [(s1 & I1 & M1) (s2 & I2 & M2)];
      (split; [exists s1 | exists s2]); (split; [assumption|]);
      first [now apply Husr | now apply Hmet]. }
  split; [exact Husr|]. split; [exact Hmet|].
  destruct (nonempty (filter is_usr sigs) && nonempty (filter is_met sigs)) eqn:E.
  - assert (Hb : both) by now apply Hboth.
    rewrite Hem. split; [|split; [|split]].
    + split; [intros _; exact Hb | reflexivity].
    + split; [discriminate | intro H; contradiction].
    + reflexivity.
    + apply andb_true_iff in E. destruct E as [E1 E2].
      apply nonempty_true in E1, E2. intros [H|H]; contradiction.
  - assert (Hb : ~ both) by (intro Hb; apply Hboth in Hb; discriminate).
    rewrite Hem. split; [|split; [|split]].
    + split; [discriminate | intro H; contradiction].
    + split; [intros _; exact Hb | reflexivity].
    + intro H. contradiction.
    + reflexivity.
Qed.

Lemma cross_layer_timezone_timing_witness :
  List.length
    (filter (fun c => String.eqb (correlation_type c) "TIMEZONE_TIMING_CORRELATION")
            (_correlate_cross_layer
               (add_signals new_engine
                  [ signal_at "locale" USERLAND 1705276800 PAIR;
                    signal_at "activity_time_window" METADATA 1705280400 PAIR ])))
  = 1%nat.
Proof.
  destruct (cross_layer_timezone_timing
              (add_signals new_engine
                 [ signal_at "locale" USERLAND 1705276800 PAIR;
                   signal_at "activity_time_window" METADATA 1705280400 PAIR ]))
    as (is_usr & is_met & _ & _ & H & _).
  apply H. split.
  - exists (signal_at "locale" USERLAND 1705276800 PAIR).
    split; [simpl; tauto|]. split; [reflexivity|].
    right. exists ""%string, ""%string. reflexivity.
  - exists (signal_at "activity_time_window" METADATA 1705280400 PAIR).
    split; [simpl; tauto|]. split; [reflexivity|].
    left. exists "activity_"%string, "_window"%string. reflexivity.
Defined.

(** X10. The cross-layer pass gives at most two results, a
    DNS_NETWORK_CORRELATION before a TIMEZONE_TIMING_CORRELATION and at most
    one of each; the first holds accumulated signals of the DNS and NETWORK
    layers only, the second of the USERLAND and METADATA layers only, so a
    KERNEL signal never takes part. *)
Theorem cross_layer_results_shape :
  forall self : CorrelationEngine,
    Subseq (map correlation_type (_correlate_cross_layer self))
           ["DNS_NETWORK_CORRELATION"; "TIMEZONE_TIMING_CORRELATION"]%string /\
    Forall (fun c =>
              Forall (fun s =>
                        In s (self_signals self) /\
                        ((correlation_type c = "DNS_NETWORK_CORRELATION"%string /\
                          (layer s = DNS \/ layer s = NETWORK)) \/
                         (correlation_type c = "TIMEZONE_TIMING_CORRELATION"%string /\
                          (layer s = USERLAND \/ layer s = METADATA))))
                     (signals c))
           (_correlate_cross_layer self).
Proof.
  intro self. rewrite correlate_cross_layer_eq. cbv zeta.
  set (sigs := self_signals self).
  split.
  - destruct (nonempty _ && nonempty _), (nonempty _ && nonempty _); simpl;
      repeat (first [apply Subseq_nil | apply Subseq_keep | apply Subseq_skip]).
  - assert (Hpair : forall (a b : OpsecLayer) (f g : Signal -> bool) s,
              In s (filter (fun s => OpsecLayer_eqb (layer s) a && f s) sigs
                    ++ filter (fun s => OpsecLayer_eqb (layer s) b && g s) sigs) ->
              In s sigs /\ (layer s = a \/ layer s = b)).
    { intros a b f g s H. apply in_app_or in H.
      destruct H as [H|H]; apply filter_In in H; destruct H as [H1 H2];
        apply andb_true_iff in H2; destruct H2 as [H2 _];
        apply OpsecLayer_eqb_eq in H2; tauto. }
    apply Forall_app. split.
    + destruct (nonempty _ && nonempty _); constructor; [|constructor].
      apply Forall_forall. intros s Hs. simpl in Hs.
      destruct (Hpair _ _ _ _ _ Hs) as [H1 H2]. simpl. tauto.
    + destruct (nonempty _ && nonempty _); constructor; [|constructor].
      apply Forall_forall. intros s Hs. simpl in Hs.
      destruct (Hpair _ _ _ _ _ Hs) as [H1 H2]. simpl. tauto.
Qed.

Lemma string_app_assoc (a b c : string) :
  ((a ++ b) ++ c)%string = (a ++ b ++ c)%string.
Proof. induction a as [|x a IH]; simpl; [reflexivity | now rewrite IH]. Qed.

(** X11. In the DNS rule the test for "public_resolver" never decides: a
    signal matches exactly when "resolver" occurs in its identifier. *)
Theorem dns_rule_resolver_only :
  forall s : Signal,
    is_dns_resolver_signal s = str_in "resolver" (signal_id s) /\
    (is_dns_resolver_signal s = true <-> contains "resolver" (signal_id s)).
Proof.
  intro s.
  assert (H : str_in "public_resolver" (signal_id s) = true ->
              str_in "resolver" (signal_id s) = true).
  { rewrite !str_in_contains. intros (pre & post & E).
    exists (pre ++ "public_")%string, post. rewrite E.
    now rewrite string_app_assoc. }
  split.
  - unfold is_dns_resolver_signal.
    destruct (str_in "resolver" (signal_id s)); [reflexivity|].
    destruct (str_in "public_resolver" (signal_id s)); [|reflexivity].
    symmetry. now apply H.
  - rewrite is_dns_resolver_signal_spec. split; [|tauto].
    intros [H1|H1]; [exact H1|].
    apply str_in_contains, H. now apply str_in_contains.
Qed.

(** ** The temporal pass *)

Lemma correlate_temporal_group (self : CorrelationEngine) (w : Z)
  (c : CorrelationResult) :
  In c (_correlate_temporal self w) ->
  exists k,
    signals c = filter (fun s => Z.eqb (bucket_key w s) k) (self_signals self).
Proof.
  intro H. apply (in_map signals) in H.
  destruct (correlate_temporal_buckets self w) as (_ & _ & E & _).
  rewrite E in H. apply filter_In in H. destruct H as [H _].
  apply in_map_iff in H. destruct H as (k & Hk & _). now exists k.
Qed.

Lemma quot_same_close (a b m : Z) :
  (0 < m)%Z -> Z.quot a m = Z.quot b m ->
  (Z.abs (a - b) < 2 * m)%Z /\
  ((0 <= a)%Z -> (0 <= b)%Z -> (Z.abs (a - b) < m)%Z).
Proof.
  intros Hm E.
  pose proof (Z.quot_rem' a m) as Ha. pose proof (Z.quot_rem' b m) as Hb.
  pose proof (Z.rem_bound_abs a m ltac:(lia)) as Ra.
  pose proof (Z.rem_bound_abs b m ltac:(lia)) as Rb.
  rewrite E in Ha. split.
  - lia.
  - intros A B.
    pose proof (Z.rem_bound_pos a m A Hm). pose proof (Z.rem_bound_pos b m B Hm).
    lia.
Qed.

(** X12. The signals of one TEMPORAL result are accumulated signals with
    one bucket key; any two of them are less than two windows apart, and
    less than one window apart when neither predates the epoch. *)
Theorem temporal_result_span :
  forall (self : CorrelationEngine) (w : positive) (c : CorrelationResult)
         (s1 s2 : Signal),
    In c (_correlate_temporal self (Z.pos w)) ->
    In s1 (signals c) -> In s2 (signals c) ->
    In s1 (self_signals self) /\ In s2 (self_signals self) /\
    bucket_key (Z.pos w) s1 = bucket_key (Z.pos w) s2 /\
    (Z.abs (timestamp s1 - timestamp s2) < 2 * (Z.pos w * 1000000))%Z /\
    ((0 <= timestamp s1)%Z -> (0 <= timestamp s2)%Z ->
     (Z.abs (timestamp s1 - timestamp s2) < Z.pos w * 1000000)%Z).
Proof.
  intros self w c s1 s2 Hc H1 H2.
  destruct (correlate_temporal_group self (Z.pos w) c Hc) as [k E].
  rewrite E in H1, H2. apply filter_In in H1, H2.
  destruct H1 as [I1 K1], H2 as [I2 K2]. apply Z.eqb_eq in K1, K2.
  split; [exact I1|]. split; [exact I2|].
  assert (Hk : bucket_key (Z.pos w) s1 = bucket_key (Z.pos w) s2) by congruence.
  split; [exact Hk|].
  rewrite !bucket_key_quot in Hk.
  apply quot_same_close; [lia | exact Hk].
Qed.

Lemma temporal_result_span_witness :
  (Z.abs (timestamp (signal_at "dns_leak" DNS (-200) PAIR)
          - timestamp (signal_at "route_change" NETWORK 200 PAIR))
   < 2 * (300 * 1000000))%Z.
Proof.
  refine (proj1 (proj2 (proj2 (proj2
    (temporal_result_span (add_signals new_engine around_epoch) 300%positive
       (correlate_group around_epoch "TEMPORAL"
          "2 signals from 2 layers occurred within 300s window")
       (signal_at "dns_leak" DNS (-200) PAIR)
       (signal_at "route_change" NETWORK 200 PAIR) _ _ _))))).
  - left. reflexivity.
  - left. reflexivity.
  - right. left. reflexivity.
Defined.


(** ** Queries *)

Lemma filter_filter_implied {A : Type} (p q : A -> bool) (l : list A) :
  (forall x, p x = true -> q x = true) ->
  filter p l = filter p (filter q l).
Proof.
  intro H. induction l as [|x l IH]; [reflexivity|].
  simpl. destruct (p x) eqn:E.
  - rewrite (H x E). simpl. now rewrite E, IH.
  - destruct (q x); simpl; [now rewrite E|]; exact IH.
Qed.

(** X14. After [correlate_all] the critical correlations are the stored
    results of score at least 0.9, all of risk level CRITICAL, and the
    high-risk correlations are the stored results of score at least 0.7;
    the critical ones are the high-risk ones of confidence CRITICAL, in the
    same order. *)
Theorem queries_after_correlate_all :
  forall self : CorrelationEngine,
    let e := fst (correlate_all self) in
    (forall c, In c (get_critical_correlations e) <->
               In c (self_correlations e) /\ (0.9 <= correlation_score c)%Q) /\
    (forall c, In c (get_high_risk_correlations e) <->
               In c (self_correlations e) /\ (0.7 <= correlation_score c)%Q) /\
    Forall (fun c => risk_level c = "CRITICAL - OPSEC COMPROMISED"%string)
           (get_critical_correlations e) /\
    get_critical_correlations e
    = filter (fun c => String.eqb (attribution_confidence c) "CRITICAL")
             (get_high_risk_correlations e).
Proof.
  intros self e.
  pose proof (correlate_all_stored_consistent self) as Hcons. fold e in Hcons.
  rewrite Forall_forall in Hcons.
  assert (Hconf : forall c, In c (self_correlations e) ->
            attribution_confidence c
            = assess_attribution_confidence (correlation_score c)).
  { intros c Hc. now destruct (Hcons c Hc) as (_ & _ & H & _). }
  split; [|split; [|split]].
  - intro c. unfold get_critical_correlations. rewrite filter_In, String.eqb_eq.
    split; intros [Hc H]; (split; [exact Hc|]).
    + rewrite (Hconf c Hc) in H.
      destruct (assess_attribution_confidence_cases (correlation_score c))
        as [[H1 E]|[(H1 & H2 & E)|[(H1 & H2 & E)|[H1 E]]]];
        rewrite E in H; try discriminate; exact H1.
    + rewrite (Hconf c Hc).
      destruct (assess_attribution_confidence_cases (correlation_score c))
        as [[H1 E]|[(H1 & H2 & E)|[(H1 & H2 & E)|[H1 E]]]];
        rewrite E; try reflexivity; exfalso; lra.
  - intro c. rewrite get_high_risk_correlations_In.
    split; intros [Hc H]; (split; [exact Hc|]).
    + rewrite (Hconf c Hc) in H.
      destruct (assess_attribution_confidence_cases (correlation_score c))
        as [[H1 E]|[(H1 & H2 & E)|[(H1 & H2 & E)|[H1 E]]]];
        rewrite E in H; destruct H as [H|H]; try discriminate; lra.
    + rewrite (Hconf c Hc).
      destruct (assess_attribution_confidence_cases (correlation_score c))
        as [[H1 E]|[(H1 & H2 & E)|[(H1 & H2 & E)|[H1 E]]]];
        rewrite E; try tauto; exfalso; lra.
  - apply Forall_forall. intros c Hc.
    unfold get_critical_correlations in Hc. apply filter_In in Hc.
    destruct Hc as [Hc H]. apply String.eqb_eq in H.
    destruct (Hcons c Hc) as (_ & _ & _ & Hr). rewrite Hr, H. reflexivity.
  - unfold get_critical_correlations, get_high_risk_correlations.
    apply filter_filter_implied. intros c H. apply String.eqb_eq in H.
    rewrite H. reflexivity.
Qed.

(** ** The report *)

Lemma dict_incr_lookup (k k' : string) (d : list (string * Z)) :
  dict_lookup k' (dict_incr k d)
  = if String.eqb k k'
    then Some (match dict_lookup k d with Some n => n + 1 | None => 1 end)%Z
    else dict_lookup k' d.
Proof.
  induction d as [|[k0 n] d IH]; simpl.
  - destruct (String.eqb k k'); reflexivity.
  - destruct (String.eqb_spec k0 k) as [->|Hk0]; simpl.
    + destruct (String.eqb_spec k k') as [->|Hk]; [reflexivity|].
      reflexivity.
    + rewrite IH.
      destruct (String.eqb_spec k0 k') as [->|Hk0'].
      * destruct (String.eqb_spec k k') as [->|Hk]; [contradiction | reflexivity].
      * reflexivity.
Qed.

Lemma dict_incr_total (k : string) (d : list (string * Z)) :
  total_count (dict_incr k d) = (total_count d + 1)%Z.
Proof.
  induction d as [|[k0 n] d IH]; simpl; [reflexivity|].
  destruct (String.eqb k0 k); simpl; [lia|]. rewrite IH. lia.
Qed.

Lemma dict_incr_keys (k : string) (d : list (string * Z)) :
  NoDup (map fst d) -> NoDup (map fst (dict_incr k d)).
Proof.
  induction d as [|[k0 n] d IH]; simpl; intro H.
  - constructor; [simpl; tauto | constructor].
  - inversion H as [|? ? Hn Hd]; subst.
    destruct (String.eqb_spec k0 k) as [->|Hk0]; simpl.
    + now constructor.
    + constructor; [|now apply IH].
      intro Hin. apply Hn. clear - Hin Hk0.
      induction d as [|[k1 m] d IH]; simpl in *.
      * destruct Hin as [E|[]]. congruence.
      * destruct (String.eqb k1 k); simpl in Hin; destruct Hin as [E|Hin]; auto.
Qed.

Section CountBy.
Context {A : Type} (key : A -> string).

Lemma count_by_snoc (l : list A) (x : A) :
  count_by key (l ++ [x]) = dict_incr (key x) (count_by key l).
Proof. unfold count_by. now rewrite fold_left_app. Qed.

(** The counter holds, for each key that occurs, how often it occurs. *)
Lemma count_by_lookup (l : list A) (k : string) :
  dict_lookup k (count_by key l)
  = if (count_if (fun x => String.eqb (key x) k) l =? 0)%Z then None
    else Some (count_if (fun x => String.eqb (key x) k) l).
Proof.
  unfold count_if. induction l as [|x l IH] using rev_ind; [reflexivity|].
  rewrite count_by_snoc, dict_incr_lookup, filter_app, length_app. simpl.
  destruct (String.eqb (key x) k) eqn:E; simpl.
  - apply String.eqb_eq in E. subst k. rewrite IH.
    destruct (Z.eqb_spec (Z.of_nat (List.length
                (filter (fun x0 => String.eqb (key x0) (key x)) l))) 0) as [E0|E0].
    + rewrite Nat2Z.inj_add, E0. reflexivity.
    + rewrite Nat2Z.inj_add.
      destruct (Z.eqb_spec (Z.of_nat (List.length
                  (filter (fun x0 => String.eqb (key x0) (key x)) l))
                + Z.of_nat 1) 0); [lia | reflexivity].
  - rewrite Nat.add_0_r. exact IH.
Qed.

Lemma count_by_total (l : list A) :
  total_count (count_by key l) = Z.of_nat (List.length l).
Proof.
  induction l as [|x l IH] using rev_ind; [reflexivity|].
  rewrite count_by_snoc, dict_incr_total, IH, length_app. simpl. lia.
Qed.

Lemma count_by_keys (l : list A) : NoDup (map fst (count_by key l)).
Proof.
  induction l as [|x l IH] using rev_ind; [constructor|].
  rewrite count_by_snoc. now apply dict_incr_keys.
Qed.
End CountBy.

Lemma counts_value_get (k : string) (d : list (string * Z)) :
  py_get k (counts_value d) = option_map PyInt (dict_lookup k d).
Proof.
  unfold counts_value, py_get. induction d as [|[k0 n] d IH]; simpl; [reflexivity|].
  destruct (String.eqb k0 k); [reflexivity | exact IH].
Qed.

Lemma OpsecLayer_value_inj (a b : OpsecLayer) :
  OpsecLayer_value a = OpsecLayer_value b -> a = b.
Proof. destruct a, b; simpl; intro H; try reflexivity; discriminate. Qed.

Lemma OpsecLayer_value_eqb (a b : OpsecLayer) :
  String.eqb (OpsecLayer_value a) (OpsecLayer_value b) = OpsecLayer_eqb a b.
Proof. destruct a, b; reflexivity. Qed.

(** X15. In the report, [summary.signals_by_layer] maps each layer that
    occurs to the number of accumulated signals of that layer and has no
    other key, [summary.correlations_by_confidence] does the same for the
    confidence of the stored correlations, and the counts add up to
    [total_signals] and [total_correlations]. *)
Theorem generate_report_counts :
  forall (isoformat : datetime -> string) (self : CorrelationEngine)
         (now : datetime),
    exists (summary : pyvalue) (by_layer by_conf : list (string * Z)),
      py_get "summary" (generate_report isoformat self now) = Some summary /\
      py_get "signals_by_layer" summary = Some (counts_value by_layer) /\
      py_get "correlations_by_confidence" summary = Some (counts_value by_conf) /\
      py_get "total_signals" summary = Some (PyInt (total_count by_layer)) /\
      py_get "total_correlations" summary = Some (PyInt (total_count by_conf)) /\
      total_count by_layer = Z.of_nat (List.length (self_signals self)) /\
      total_count by_conf = Z.of_nat (List.length (self_correlations self)) /\
      NoDup (map fst by_layer) /\ NoDup (map fst by_conf) /\
      (forall l : OpsecLayer,
         let n := count_if (fun s => OpsecLayer_eqb (layer s) l) (self_signals self) in
         py_get (OpsecLayer_value l) (counts_value by_layer)
         = if (n =? 0)%Z then None else Some (PyInt n)) /\
      (forall k : string,
         (forall l, k <> OpsecLayer_value l) ->
         py_get k (counts_value by_layer) = None) /\
      (forall k : string,
         let n := count_if (fun c => String.eqb (attribution_confidence c) k)
                           (self_correlations self) in
         py_get k (counts_value by_conf)
         = if (n =? 0)%Z then None else Some (PyInt n)).
Proof.
  intros isoformat self now.
  exists (PyDict
    [ ("total_signals", PyInt (Z.of_nat (List.length (self_signals self))));
      ("signals_by_layer",
       counts_value (count_by (fun s => OpsecLayer_value (layer s)) (self_signals self)));
      ("total_correlations",
       PyInt (Z.of_nat (List.length (self_correlations self))));
      ("correlations_by_confidence",
       counts_value (count_by attribution_confidence (self_correlations self))) ]%string).
  exists (count_by (fun s => OpsecLayer_value (layer s)) (self_signals self)).
  exists (count_by attribution_confidence (self_correlations self)).
  rewrite !count_by_total.
  repeat (split; [reflexivity|]).
  split; [apply count_by_keys|]. split; [apply count_by_keys|].
  split; [|split].
  - intros l n. rewrite counts_value_get, count_by_lookup.
    assert (E : count_if (fun s => String.eqb (OpsecLayer_value (layer s))
                                     (OpsecLayer_value l)) (self_signals self) = n).
    { unfold n, count_if. f_equal. f_equal. apply filter_ext.
      intro s. apply OpsecLayer_value_eqb. }
    rewrite E. now destruct (n =? 0)%Z.
  - intros k Hk. rewrite counts_value_get, count_by_lookup.
    assert (E : count_if (fun s => String.eqb (OpsecLayer_value (layer s)) k)
                         (self_signals self) = 0%Z).
    { unfold count_if. rewrite filter_none; [reflexivity|].
      intros s _. apply String.eqb_neq. intro E. now apply (Hk (layer s)). }
    rewrite E. reflexivity.
  - intros k n. rewrite counts_value_get, count_by_lookup. fold n.
    now destruct (n =? 0)%Z.
Qed.

Lemma Qgt_bool_true (a b : Q) : negb (Qle_bool a b) = true <-> (b < a)%Q.
Proof.
  rewrite negb_true_iff. split.
  - intro H. apply Qnot_le_lt. intro H'. apply Qle_bool_iff in H'. congruence.
  - intro H. destruct (Qle_bool a b) eqn:E; [|reflexivity].
    apply Qle_bool_iff in E. apply Qlt_not_le in H. contradiction.
Qed.

Lemma Qgt_bool_false (a b : Q) : negb (Qle_bool a b) = false <-> (a <= b)%Q.
Proof. rewrite negb_false_iff. apply Qle_bool_iff. Qed.

(** [max] returns the first element whose key is greatest. *)
Lemma max_from_first {A : Type} (key : A -> Q) (l : list A) (best : A) :
  exists pre post,
    best :: l = pre ++ max_from key best l :: post /\
    Forall (fun x => (key x < key (max_from key best l))%Q) pre /\
    Forall (fun x => (key x <= key (max_from key best l))%Q) post.
Proof.
  revert best. induction l as [|x l IH]; intro best.
  - exists [], []. simpl. repeat split; constructor.
  - simpl. destruct (negb (Qle_bool (key x) (key best))) eqn:E.
    + apply Qgt_bool_true in E.
      destruct (IH x) as (pre & post & Hl & Hpre & Hpost).
      exists (best :: pre), post. split; [simpl; f_equal; exact Hl|].
      split; [|exact Hpost]. constructor; [|exact Hpre].
      apply Qlt_le_trans with (key x); [exact E|].
      destruct pre as [|p pre].
      * simpl in Hl. injection Hl as Hx Hrest.
        replace (max_from key x l) with x by exact Hx. apply Qle_refl.
      * simpl in Hl. injection Hl as Hp Hrest. subst p. inversion Hpre; subst.
        now apply Qlt_le_weak.
    + apply Qgt_bool_false in E.
      destruct (IH best) as (pre & post & Hl & Hpre & Hpost).
      destruct pre as [|p pre].
      * simpl in Hl. injection Hl as Hb Hrest.
        exists [], (x :: post). split; [simpl; congruence|].
        split; [constructor|]. constructor; [|exact Hpost].
        replace (max_from key best l) with best by exact Hb. exact E.
      * simpl in Hl. injection Hl as Hp Hrest. subst p.
        exists (best :: x :: pre), post. split; [simpl; congruence|].
        split; [|exact Hpost]. inversion Hpre; subst.
        constructor; [assumption|]. constructor; [|assumption].
        eapply Qle_lt_trans; eassumption.
Qed.

(** X16. In the report, [highest_risk_correlation] is [None] exactly when no
    correlation is stored; otherwise it is the serialization of the first
    stored correlation with the greatest score: every earlier one scores
    strictly less, none scores more. *)
Theorem generate_report_highest_risk :
  forall (isoformat : datetime -> string) (self : CorrelationEngine)
         (now : datetime),
    let r := generate_report isoformat self now in
    (py_get "highest_risk_correlation" r = Some PyNone
     <-> self_correlations self = []) /\
    (self_correlations self = [] \/
     exists pre c post,
       self_correlations self = pre ++ c :: post /\
       Forall (fun x => (correlation_score x < correlation_score c)%Q) pre /\
       Forall (fun x => (correlation_score x <= correlation_score c)%Q) post /\
       py_get "highest_risk_correlation" r
       = Some (CorrelationResult_to_dict isoformat c)).
Proof.
  intros isoformat self now r. unfold r, generate_report.
  destruct (self_correlations self) as [|x l] eqn:E.
  - split; [|now left]. split; reflexivity.
  - split.
    + simpl. split; discriminate.
    + right. destruct (max_from_first correlation_score l x)
        as (pre & post & Hl & Hpre & Hpost).
      exists pre, (max_from correlation_score x l), post.
      split; [exact Hl|]. split; [exact Hpre|]. split; [exact Hpost|].
      reflexivity.
Qed.

Lemma Subseq_map_filter {A B : Type} (f : A -> B) (p : A -> bool) (l : list A) :
  Subseq (map f (filter p l)) (map f l).
Proof.
  induction l as [|x l IH]; simpl; [constructor|].
  destruct (p x); simpl; now constructor.
Qed.

(** In the report, [all_signals] and [all_correlations] serialize the
    accumulated signals and the stored correlations one for one and in
    order, so their lengths are [total_signals] and [total_correlations];
    [critical_correlations] is a sub-list of [all_correlations], in the same
    order; and in a serialized correlation [signal_count] is the length of
    [signal_layers] and of [signals]. *)
Theorem generate_report_lists :
  forall (isoformat : datetime -> string) (self : CorrelationEngine)
         (now : datetime),
    let r := generate_report isoformat self now in
    exists summary sigs corrs crit,
      py_get "summary" r = Some summary /\
      py_get "all_signals" r = Some (PyList sigs) /\
      py_get "all_correlations" r = Some (PyList corrs) /\
      py_get "critical_correlations" r = Some (PyList crit) /\
      sigs = map (Signal_to_dict isoformat) (self_signals self) /\
      corrs = map (CorrelationResult_to_dict isoformat) (self_correlations self) /\
      py_get "total_signals" summary = Some (PyInt (Z.of_nat (List.length sigs))) /\
      py_get "total_correlations" summary
      = Some (PyInt (Z.of_nat (List.length corrs))) /\
      Subseq crit corrs /\
      (forall c : CorrelationResult,
         exists layers members,
           py_get "signal_layers" (CorrelationResult_to_dict isoformat c)
           = Some (PyList layers) /\
           py_get "signals" (CorrelationResult_to_dict isoformat c)
           = Some (PyList members) /\
           py_get "signal_count" (CorrelationResult_to_dict isoformat c)
           = Some (PyInt (Z.of_nat (List.length layers))) /\
           List.length members = List.length layers).
Proof.
  intros isoformat self now r.
  eexists _, _, _, _.
  split; [reflexivity|]. split; [reflexivity|]. split; [reflexivity|].
  split; [reflexivity|]. split; [reflexivity|]. split; [reflexivity|].
  split; [simpl; now rewrite length_map|].
  split; [simpl; now rewrite length_map|].
  split; [apply Subseq_map_filter|].
  intro c. eexists _, _.
  split; [reflexivity|]. split; [reflexivity|].
  split; [simpl; now rewrite length_map | now rewrite !length_map].
Qed.

(** ** DNSResolverAnalyzer *)

(** What the loop over the resolvers emits, whatever the clock. *)
Lemma resolver_loop_spec (clock : nat -> datetime) (vpn : option string)
  (rs : list string) (tick : nat) :
  let out := fst (resolver_loop clock vpn rs tick) in
  Forall (fun s => layer s = DNS) out /\
  (List.length out <= 2 * List.length rs)%nat /\
  (forall r info,
     In r rs -> dict_lookup r PUBLIC_RESOLVERS = Some info ->
     exists s, In s out /\
       signal_id s = ("public_resolver_" ++ replace_char "." "_" r)%string /\
       value s = r) /\
  (forall s, In s out ->
     (exists r info,
        In r rs /\ dict_lookup r PUBLIC_RESOLVERS = Some info /\
        signal_id s = ("public_resolver_" ++ replace_char "." "_" r)%string) \/
     (signal_id s = "dns_vpn_as_mismatch"%string /\
      exists r info v,
        In r rs /\ dict_lookup r PUBLIC_RESOLVERS = Some info /\
        vpn = Some v /\ info_as info <> v)) /\
  (forall r info v,
     In r rs -> dict_lookup r PUBLIC_RESOLVERS = Some info ->
     vpn = Some v -> info_as info <> v ->
     exists s, In s out /\ signal_id s = "dns_vpn_as_mismatch"%string).
Proof.
  revert tick. induction rs as [|r0 rs IH]; intro tick.
  - simpl. repeat split; try constructor; try lia; intros; contradiction.
  - cbn [resolver_loop].
    destruct (dict_lookup r0 PUBLIC_RESOLVERS) as [info0|] eqn:E0.
    + set (mm := match vpn with
                 | Some v =>
                     if negb (String.eqb (info_as info0) v)
                     then ([as_mismatch_signal info0 v (clock (S tick))], S (S tick))
                     else ([], S tick)
                 | None => ([], S tick)
                 end).
      assert (Hmm : (fst mm = [] /\
                     (forall v, vpn = Some v -> info_as info0 = v)) \/
                    (exists v now, fst mm = [as_mismatch_signal info0 v now] /\
                       vpn = Some v /\ info_as info0 <> v)).
      { unfold mm. destruct vpn as [v|].
        - destruct (String.eqb_spec (info_as info0) v) as [Ev|Ev]; simpl.
          + left. split; [reflexivity|]. intros v' H. congruence.
          + right. exists v, (clock (S tick)). tauto.
        - left. split; [reflexivity | discriminate]. }
      destruct (IH (snd mm)) as (H1 & H2 & H3 & H4 & H5).
      cbv zeta. cbn [fst].
      set (rest := fst (resolver_loop clock vpn rs (snd mm))) in *.
      split; [|split; [|split; [|split]]].
      * constructor; [reflexivity|]. apply Forall_app. split; [|exact H1].
        destruct Hmm as [[-> _]|(v & now & -> & _)]; repeat constructor.
      * simpl. rewrite length_app.
        destruct Hmm as [[-> _]|(v & now & -> & _)]; simpl; lia.
      * intros r info [<-|Hr] Hi.
        -- rewrite E0 in Hi. inversion Hi; subst info.
           eexists. split; [left; reflexivity|]. split; reflexivity.
        -- destruct (H3 r info Hr Hi) as (s & Hs & Hid).
           exists s. split; [|exact Hid]. right. apply in_or_app. now right.
      * intros s [<-|Hs].
        -- left. exists r0, info0. repeat split; [now left | exact E0].
        -- apply in_app_or in Hs. destruct Hs as [Hs|Hs].
           ++ destruct Hmm as [[Em _]|(v & now & Em & Hv & Hne)];
                rewrite Em in Hs; [contradiction|].
              destruct Hs as [<-|[]]. right. split; [reflexivity|].
              exists r0, info0, v. repeat split; [now left | exact E0 | exact Hv | exact Hne].
           ++ destruct (H4 s Hs) as [(r & info & Hr & Hi & Hid)|(Hid & r & info & v & Hr & Hi & Hv & Hne)].
              ** left. exists r, info. repeat split; [now right | exact Hi | exact Hid].
              ** right. split; [exact Hid|]. exists r, info, v.
                 repeat split; [now right | exact Hi | exact Hv | exact Hne].
      * intros r info v [<-|Hr] Hi Hv Hne.
        -- rewrite E0 in Hi. inversion Hi; subst info.
           destruct Hmm as [[_ Heq]|(v' & now & Em & Hv' & _)];
             [elim Hne; now apply Heq|].
           eexists. split; [right; apply in_or_app; left; rewrite Em; now left|].
           reflexivity.
        -- destruct (H5 r info v Hr Hi Hv Hne) as (s & Hs & Hid).
           exists s. split; [|exact Hid]. right. apply in_or_app. now right.
    + destruct (IH tick) as (H1 & H2 & H3 & H4 & H5).
      cbv zeta. split; [exact H1|]. split; [simpl; lia|].
      split; [|split].
      * intros r info [<-|Hr] Hi; [congruence | now apply (H3 r info)].
      * intros s Hs.
        destruct (H4 s Hs) as [(r & info & Hr & Hi & Hid)|(Hid & r & info & v & Hr & Hi & Hv & Hne)].
        -- left. exists r, info. repeat split; [now right | exact Hi | exact Hid].
        -- right. split; [exact Hid|]. exists r, info, v.
           repeat split; [now right | exact Hi | exact Hv | exact Hne].
      * intros r info v [<-|Hr] Hi Hv Hne; [congruence|].
        now apply (H5 r info v).
Qed.

(** X17. [DNSResolverAnalyzer.analyze] appends what it returns to the
    analyzer's signals, and returns DNS-layer signals only.  Without a
    'resolvers' key it returns nothing, not even the DoH finding.  With
    one, every listed resolver of the public table gives a
    "public_resolver_..." signal carrying the resolver as value; a
    "doh_disabled" signal is present exactly when 'doh_enabled' is not
    true; a "dns_vpn_as_mismatch" signal is present exactly when 'vpn_as' is
    given and differs from the AS of a listed public resolver; and at most
    two signals a resolver plus one are returned. *)
Theorem DNSResolverAnalyzer_analyze_spec :
  forall (clock : nat -> datetime) (self : OpsecAnalyzer)
         (config : ResolverConfig),
    let self' := fst (DNSResolverAnalyzer_analyze clock self config) in
    let out := snd (DNSResolverAnalyzer_analyze clock self config) in
    analyzer_layer self' = analyzer_layer self /\
    analyzer_signals self' = analyzer_signals self ++ out /\
    Forall (fun s => layer s = DNS) out /\
    (resolvers config = None -> out = []) /\
    (forall rs,
       resolvers config = Some rs ->
       (List.length out <= 2 * List.length rs + 1)%nat /\
       (forall r info,
          In r rs -> dict_lookup r PUBLIC_RESOLVERS = Some info ->
          exists s, In s out /\
            signal_id s = ("public_resolver_" ++ replace_char "." "_" r)%string /\
            value s = r) /\
       ((exists s, In s out /\ signal_id s = "doh_disabled"%string)
        <-> doh_enabled config <> Some true) /\
       ((exists s, In s out /\ signal_id s = "dns_vpn_as_mismatch"%string)
        <-> exists r info v,
              In r rs /\ dict_lookup r PUBLIC_RESOLVERS = Some info /\
              vpn_as config = Some v /\ info_as info <> v)).
Proof.
  intros clock self config self' out. unfold self', out, DNSResolverAnalyzer_analyze.
  destruct (resolvers config) as [rs|] eqn:Ers.
  - assert (Hne : config_nonempty config = true)
      by (unfold config_nonempty; now rewrite Ers).
    rewrite Hne. cbn [negb orb fst snd analyzer_layer analyzer_signals].
    destruct (resolver_loop_spec clock (vpn_as config) rs 0)
      as (H1 & H2 & H3 & H4 & H5).
    cbv zeta in H1, H2, H3, H4, H5.
    set (found := resolver_loop clock (vpn_as config) rs 0) in *.
    set (doh := match doh_enabled config with
                | Some true => []
                | _ => [doh_disabled_signal (clock (snd found))]
                end).
    assert (Hdoh : (doh = [] /\ doh_enabled config = Some true) \/
                   (doh = [doh_disabled_signal (clock (snd found))] /\
                    doh_enabled config <> Some true)).
    { unfold doh. destruct (doh_enabled config) as [[|]|];
        [left; tauto | right; split; [reflexivity | discriminate]
         | right; split; [reflexivity | discriminate]]. }
    split; [reflexivity|]. split; [reflexivity|].
    split.
    { apply Forall_app. split; [exact H1|].
      destruct Hdoh as [[-> _]|[-> _]]; repeat constructor. }
    split; [discriminate|].
    intros rs' Hrs'. inversion Hrs'; subst rs'.
    split; [|split; [|split]].
    + rewrite length_app. destruct Hdoh as [[-> _]|[-> _]]; simpl; lia.
    + intros r info Hr Hi. destruct (H3 r info Hr Hi) as (s & Hs & Hid).
      exists s. split; [apply in_or_app; now left | exact Hid].
    + split.
      * intros (s & Hs & Hid). apply in_app_or in Hs. destruct Hs as [Hs|Hs].
        -- exfalso.
           destruct (H4 s Hs) as [(r & info & _ & _ & E)|(E & _)];
             rewrite E in Hid; discriminate.
        -- destruct Hdoh as [[Ed _]|[_ Hd]]; [rewrite Ed in Hs; contradiction|].
           exact Hd.
      * intro Hd. destruct Hdoh as [[_ Ed]|[Ed _]]; [contradiction|].
        eexists. split; [apply in_or_app; right; rewrite Ed; now left|].
        reflexivity.
    + split.
      * intros (s & Hs & Hid). apply in_app_or in Hs. destruct Hs as [Hs|Hs].
        -- destruct (H4 s Hs) as [(r & info & _ & _ & E)|(_ & Hex)];
             [rewrite E in Hid; discriminate | exact Hex].
        -- exfalso. destruct Hdoh as [[Ed _]|[Ed _]]; rewrite Ed in Hs;
             [contradiction|].
           destruct Hs as [<-|[]]. discriminate.
      * intros (r & info & v & Hr & Hi & Hv & Hdiff).
        destruct (H5 r info v Hr Hi Hv Hdiff) as (s & Hs & Hid).
        exists s. split; [apply in_or_app; now left | exact Hid].
  - rewrite orb_true_r. cbn [fst snd].
    split; [reflexivity|]. split; [now rewrite app_nil_r|].
    split; [constructor|]. split; [reflexivity | discriminate].
Qed.

Lemma DNSResolverAnalyzer_analyze_spec_witness :
  exists s,
    In s (snd (DNSResolverAnalyzer_analyze (fun n => Z.of_nat n) (new_analyzer DNS)
                 (mkResolverConfig (Some ["8.8.8.8"; "10.0.0.53"]%string)
                                   (Some "AS64512"%string) None None))) /\
    signal_id s = "dns_vpn_as_mismatch"%string.
Proof.
  destruct (DNSResolverAnalyzer_analyze_spec (fun n => Z.of_nat n) (new_analyzer DNS)
              (mkResolverConfig (Some ["8.8.8.8"; "10.0.0.53"]%string)
                                (Some "AS64512"%string) None None))
    as (_ & _ & _ & _ & H).
  destruct (H ["8.8.8.8"; "10.0.0.53"]%string eq_refl) as (_ & _ & _ & Hm).
  apply Hm.
  exists "8.8.8.8"%string,
         (mkResolverInfo "Google Public DNS" "AS15169" "Global"),
         "AS64512"%string.
  repeat split; [now left | discriminate].
Defined.

Lemma contains_public_resolver (r : string) :
  contains "resolver" ("public_resolver_" ++ r).
Proof. exists "public_"%string, ("_" ++ r)%string. reflexivity. Qed.

(** X18. The finding of [DNSResolverAnalyzer] for a public resolver meets
    the DNS rule of the engine: once the signals returned for a
    configuration that lists a resolver of the public table are in the
    engine together with a NETWORK signal that has "as" in its identifier,
    the cross-layer pass emits its one DNS_NETWORK_CORRELATION result. *)
Theorem public_resolver_triggers_dns_network :
  forall (clock : nat -> datetime) (analyzer : OpsecAnalyzer)
         (config : ResolverConfig) (rs : list string) (r : string)
         (info : ResolverInfo) (net : Signal) (engine : CorrelationEngine),
    resolvers config = Some rs -> In r rs ->
    dict_lookup r PUBLIC_RESOLVERS = Some info ->
    layer net = NETWORK -> contains_as_nocase (signal_id net) ->
    incl (snd (DNSResolverAnalyzer_analyze clock analyzer config))
         (self_signals engine) ->
    In net (self_signals engine) ->
    List.length
      (filter (fun c => String.eqb (correlation_type c) "DNS_NETWORK_CORRELATION")
              (_correlate_cross_layer engine)) = 1%nat.
Proof.
  intros clock analyzer config rs r info net engine Hrs Hr Hi Hl Has Hincl Hnet.
  unfold DNSResolverAnalyzer_analyze in Hincl. rewrite Hrs in Hincl.
  assert (Hne : config_nonempty config = true)
    by (unfold config_nonempty; now rewrite Hrs).
  rewrite Hne in Hincl. cbn [negb orb snd] in Hincl.
  destruct (resolver_loop_spec clock (vpn_as config) rs 0) as (H1 & _ & H3 & _).
  cbv zeta in H1, H3.
  destruct (H3 r info Hr Hi) as (s & Hs & Hid & _).
  assert (Hs' : In s (self_signals engine))
    by (apply Hincl, in_or_app; now left).
  assert (Hsl : layer s = DNS) by (rewrite Forall_forall in H1; now apply H1).
  rewrite correlate_cross_layer_eq. cbv zeta. rewrite filter_app.
  assert (E1 : nonempty (filter (fun s => OpsecLayer_eqb (layer s) DNS
                                          && is_dns_resolver_signal s)
                                (self_signals engine)) = true).
  { apply nonempty_filter. exists s. split; [exact Hs'|].
    rewrite Hsl. simpl. apply is_dns_resolver_signal_spec. left.
    rewrite Hid. apply contains_public_resolver. }
  assert (E2 : nonempty (filter (fun s => OpsecLayer_eqb (layer s) NETWORK
                                          && is_as_signal s)
                                (self_signals engine)) = true).
  { apply nonempty_filter. exists net. split; [exact Hnet|].
    rewrite Hl. simpl. now apply is_as_signal_spec. }
  rewrite E1, E2. cbn [andb].
  destruct (nonempty _ && nonempty _); reflexivity.
Qed.

Lemma public_resolver_triggers_dns_network_witness :
  List.length
    (filter (fun c => String.eqb (correlation_type c) "DNS_NETWORK_CORRELATION")
            (_correlate_cross_layer
               (add_signals
                  (add_signals new_engine
                     (snd (DNSResolverAnalyzer_analyze (fun n => Z.of_nat n)
                             (new_analyzer DNS)
                             (mkResolverConfig (Some ["1.1.1.1"]%string)
                                               None (Some true) None))))
                  [signal_at "as_path_length" NETWORK 1705276800 MULTI])))
  = 1%nat.
Proof.
  apply (public_resolver_triggers_dns_network (fun n => Z.of_nat n)
           (new_analyzer DNS)
           (mkResolverConfig (Some ["1.1.1.1"]%string) None (Some true) None)
           ["1.1.1.1"]%string "1.1.1.1"%string
           (mkResolverInfo "Cloudflare DNS" "AS13335" "Global")
           (signal_at "as_path_length" NETWORK 1705276800 MULTI)).
  - reflexivity.
  - now left.
  - reflexivity.
  - reflexivity.
  - exists ""%string, "a"%char, "s"%char, "_path_length"%string.
    split; [reflexivity|]. split; now left.
  - intros s Hs. unfold add_signals, new_engine. cbn [self_signals app].
    apply in_or_app. left. exact Hs.
  - unfold add_signals, new_engine. cbn [self_signals app].
    apply in_or_app. right. now left.
Defined.

(** ** EnvironmentAnalyzer *)

(** X19. [_analyze_locale] reports the first of LANG, LC_ALL and
    LC_MESSAGES that is set, and nothing when none is: the signal is a
    USERLAND signal named "locale" whose value is the value of that
    variable, and it satisfies the USERLAND test of the engine's timezone
    rule. *)
Theorem analyze_locale_spec :
  forall (environ : list (string * string)) (now : datetime),
    (_analyze_locale environ now = None <->
     dict_lookup "LANG" environ = None /\
     dict_lookup "LC_ALL" environ = None /\
     dict_lookup "LC_MESSAGES" environ = None) /\
    (forall s,
       _analyze_locale environ now = Some s ->
       layer s = USERLAND /\ signal_id s = "locale"%string /\
       timestamp s = now /\ is_timezone_signal s = true /\
       (dict_lookup "LANG" environ = Some (value s) \/
        (dict_lookup "LANG" environ = None /\
         dict_lookup "LC_ALL" environ = Some (value s)) \/
        (dict_lookup "LANG" environ = None /\
         dict_lookup "LC_ALL" environ = None /\
         dict_lookup "LC_MESSAGES" environ = Some (value s)))).
Proof.
  intros environ now. unfold _analyze_locale. cbn [first_locale].
  destruct (dict_lookup "LANG" environ) as [v1|] eqn:E1.
  { split.
    - split; [discriminate | intros [H _]; discriminate].
    - intros s H. inversion H; subst s. cbn. tauto. }
  destruct (dict_lookup "LC_ALL" environ) as [v2|] eqn:E2.
  { split.
    - split; [discriminate | intros (_ & H & _); discriminate].
    - intros s H. inversion H; subst s. cbn. tauto. }
  destruct (dict_lookup "LC_MESSAGES" environ) as [v3|] eqn:E3.
  { split.
    - split; [discriminate | intros (_ & _ & H); discriminate].
    - intros s H. inversion H; subst s. cbn. tauto. }
  split; [tauto | discriminate].
Qed.

Lemma analyze_locale_spec_witness :
  is_timezone_signal
    (environment_signal "locale" "System locale configuration"
       "LC_ALL" "sv_SE.UTF-8" 1705276800%Z) = true.
Proof.
  destruct (analyze_locale_spec
              [("HOME", "/home/op"); ("LC_ALL", "sv_SE.UTF-8")]%string
              1705276800%Z) as [_ H].
  apply (H (environment_signal "locale" "System locale configuration"
              "LC_ALL" "sv_SE.UTF-8" 1705276800%Z)).
  reflexivity.
Defined.

Lemma env_vars_loop_spec (environ : list (string * string))
  (clock : nat -> datetime) (vars : list string) (tick : nat) :
  let out := env_vars_loop environ clock vars tick in
  let present := filter (is_set environ) vars in
  map signal_id out = map (fun v => ("env_" ++ lower v)%string) present /\
  map (fun s => Some (value s)) out = map (fun v => dict_lookup v environ) present /\
  map timestamp out = map clock (seq tick (List.length present)) /\
  Forall (fun s => layer s = USERLAND) out.
Proof.
  revert tick. induction vars as [|v vars IH]; intro tick; cbv zeta.
  - repeat split; constructor.
  - cbn [env_vars_loop filter].
    change (is_set environ v)
      with (match dict_lookup v environ with Some _ => true | None => false end).
    destruct (dict_lookup v environ) as [val|] eqn:E.
    + destruct (IH (S tick)) as (H1 & H2 & H3 & H4).
      cbn [map List.length seq]. rewrite H1, H2, H3, E.
      repeat split. now constructor.
    + apply IH.
Qed.

(** X20. [_analyze_env_vars] gives one USERLAND signal for each of USER,
    USERNAME, HOME, USERPROFILE, HOSTNAME and COMPUTERNAME that is set, in
    that order and none else, so six at most: the signal of a variable is
    named "env_" followed by its name in lower case and carries its value.
    None of these signals satisfies the USERLAND test of the engine's
    timezone rule. *)
Theorem analyze_env_vars_spec :
  forall (environ : list (string * string)) (clock : nat -> datetime),
    let out := _analyze_env_vars environ clock in
    let present := filter (is_set environ) sensitive_vars in
    map signal_id out = map (fun v => ("env_" ++ lower v)%string) present /\
    map (fun s => Some (value s)) out = map (fun v => dict_lookup v environ) present /\
    map timestamp out = map clock (seq 0 (List.length out)) /\
    (List.length out <= 6)%nat /\
    Forall (fun s => layer s = USERLAND /\ is_timezone_signal s = false) out.
Proof.
  intros environ clock out present.
  destruct (env_vars_loop_spec environ clock sensitive_vars 0) as (H1 & H2 & H3 & H4).
  cbv zeta in H1, H2, H3, H4.
  change (env_vars_loop environ clock sensitive_vars 0) with out in H1, H2, H3, H4.
  fold present in H1, H2, H3.
  assert (Hlen : List.length out = List.length present).
  { rewrite <- (length_map signal_id out), H1. apply length_map. }
  split; [exact H1|]. split; [exact H2|].
  split; [now rewrite Hlen|].
  split.
  { rewrite Hlen. unfold present.
    etransitivity; [apply filter_length_le | simpl; lia]. }
  apply Forall_forall. intros s Hs. split.
  - rewrite Forall_forall in H4. now apply H4.
  - assert (Hid : In (signal_id s)
                    (map (fun v => ("env_" ++ lower v)%string) sensitive_vars)).
    { apply (in_map signal_id) in Hs. rewrite H1 in Hs.
      apply in_map_iff in Hs. destruct Hs as (v & <- & Hv).
      apply (in_map (fun v => ("env_" ++ lower v)%string)).
      unfold present in Hv. now apply filter_In in Hv. }
    unfold is_timezone_signal.
    simpl in Hid.
    destruct Hid as [<-|[<-|[<-|[<-|[<-|[<-|[]]]]]]]; reflexivity.
Qed.

(** ** TLSFingerprintAnalyzer *)

Lemma join_snoc (sep x y : string) (l : list string) :
  join sep ((x :: l) ++ [y]) = (join sep (x :: l) ++ sep ++ y)%string.
Proof.
  revert x. induction l as [|z l IH]; intro x.
  - reflexivity.
  - change (join sep ((x :: z :: l) ++ [y]))
      with (x ++ sep ++ join sep ((z :: l) ++ [y]))%string.
    rewrite IH.
    change (join sep (x :: z :: l)) with (x ++ sep ++ join sep (z :: l))%string.
    now rewrite !string_app_assoc.
Qed.

(** X21. The fingerprint string does not tell where one list of the
    handshake ends and the next begins: moving the last cipher suite to the
    front of a non-empty extension list, when a cipher suite remains, gives
    a different handshake with the same string. *)
Theorem create_ja3_string_collision :
  forall (c x e : Z) (cs ext cu sg : list Z),
    mkHandshake ((c :: cs) ++ [x]) (e :: ext) cu sg
    <> mkHandshake (c :: cs) (x :: e :: ext) cu sg /\
    _create_ja3_string (mkHandshake ((c :: cs) ++ [x]) (e :: ext) cu sg)
    = _create_ja3_string (mkHandshake (c :: cs) (x :: e :: ext) cu sg).
Proof.
  intros c x e cs ext cu sg. split.
  - intro H. injection H as H _. apply (f_equal (@List.length Z)) in H.
    rewrite length_app in H. simpl in H. lia.
  - unfold _create_ja3_string.
    cbn [cipher_suites extensions curves signature_algorithms].
    rewrite map_app. cbn [map].
    change (map str_of_Z (c :: cs)) with (str_of_Z c :: map str_of_Z cs).
    rewrite join_snoc.
    change (join "," (str_of_Z x :: str_of_Z e :: map str_of_Z ext))
      with (str_of_Z x ++ "," ++ join "," (str_of_Z e :: map str_of_Z ext))%string.
    now rewrite !string_app_assoc.
Qed.
